(** * Polyline drawing tool (plugin-examples/polyline-drawing-tool)

    A shallow embedding of [PolylineRenderer], [PolylinePaneView] and
    [PolylineDrawingTool], and the properties of the written specification
    stated over it.

    Diagnostic [console.log] calls and the toolbar DOM construction
    ([setupToolbar], [_createToolbarButton], the button restyling inside
    [activate]/[deactivate] and the logging-only DOM click listener that
    [activate] installs) take no part in the state read by the code below
    and are left out. *)

From Stdlib Require Import ZArith String Lia.
From stdpp Require Import base tactics option list relations.

Set Default Proof Using "Type".

(** ** JavaScript numbers

    The code only multiplies numbers, rounds them, compares them with
    [null] and tests them for truthiness; the development is parametric in
    the number type, so every statement holds for IEEE doubles as well as
    for the integer instance used in the examples. *)

Class JsNumber (num : Type) := {
  nmul : num -> num -> num;      (* a * b *)
  nround : num -> num;           (* Math.round(a) *)
  nlit : Z -> num;               (* an integer literal *)
  npi : num;                     (* Math.PI *)
  nfalsy : num -> bool           (* !a : true on 0 and NaN *)
}.

(** Integer pixel arithmetic, for the concrete worlds below: on integers
    [Math.round] is the identity; the full-circle angle [2 * Math.PI] is kept
    as the integer 6 and takes no part in any statement. *)
#[export] Instance Z_JsNumber : JsNumber Z := {
  nmul := Z.mul;
  nround := fun a => a;
  nlit := fun a => a;
  npi := 3%Z;
  nfalsy := fun a => Z.eqb a 0
}.

(** ** Completions: a call either returns or throws *)

Inductive completion (A : Type) : Type :=
| Normal (a : A)
| Throw.
Arguments Normal {A} a.
Arguments Throw {A}.

(** Heap addresses, host handles. *)
Abbreviation loc := nat (only parsing).
Abbreviation ChartId := nat (only parsing).
Abbreviation SeriesId := nat (only parsing).
Abbreviation CallbackId := nat (only parsing).

Section Model.
Context {num : Type} {JN : JsNumber num}.

(** ** Data model *)

(** [Time] of lightweight-charts: a UTC timestamp (a number), a business
    day object, or a date string. *)
Inductive Time : Type :=
| UTCTimestamp (t : num)
| BusinessDay (year month day : num)
| TimeString (s : string).

(** JavaScript truthiness of a [Time] value, as tested by [!param.time]. *)
Definition time_truthy (t : Time) : bool :=
  match t with
  | UTCTimestamp n => negb (nfalsy n)
  | BusinessDay _ _ _ => true
  | TimeString s => negb (String.eqb s EmptyString)
  end.

Record PolylinePoint : Type := {
  time : Time;
  price : num
}.

Inductive LineStyle : Type := solid | dashed.

Record PolylineOptions : Type := {
  color : string;
  lineWidth : num;
  lineStyle : LineStyle;
  dashPattern : option (list num);
  pointRadius : num;
  pointColor : string
}.

Definition defaultOptions : PolylineOptions := {|
  color := "#2962FF"%string;
  lineWidth := nlit 2;
  lineStyle := solid;
  dashPattern := None;
  pointRadius := nlit 4;
  pointColor := "#2962FF"%string
|}.

(** [Partial<PolylineOptions>]: [None] is an absent property. *)
Record PartialOptions : Type := {
  p_color : option string;
  p_lineWidth : option num;
  p_lineStyle : option LineStyle;
  p_dashPattern : option (list num);
  p_pointRadius : option num;
  p_pointColor : option string
}.

(** The object spread [{ ...base, ...over }]. *)
Definition spread (base : PolylineOptions) (over : PartialOptions) : PolylineOptions := {|
  color := default (color base) (p_color over);
  lineWidth := default (lineWidth base) (p_lineWidth over);
  lineStyle := default (lineStyle base) (p_lineStyle over);
  dashPattern := match p_dashPattern over with Some d => Some d | None => dashPattern base end;
  pointRadius := default (pointRadius base) (p_pointRadius over);
  pointColor := default (pointColor base) (p_pointColor over)
|}.

(** [interface ViewPoint { x: number | null; y: number | null }] *)
Record ViewPoint : Type := {
  vp_x : option num;
  vp_y : option num
}.

(** The test [p.x !== null && p.y !== null] of the source. *)
Definition resolved (p : ViewPoint) : bool :=
  match vp_x p, vp_y p with
  | Some _, Some _ => true
  | _, _ => false
  end.

(** ** The 2D context calls made by [draw] *)

Inductive CanvasOp : Type :=
| save
| restore
| beginPath
| moveTo (px py : num)
| lineTo (px py : num)
| arc (cx cy radius startAngle endAngle : num)
| fill
| stroke
| setLineDash (segments : list num)
| set_fillStyle (s : string)
| set_strokeStyle (s : string)
| set_lineWidth (w : num).

(** The dereferenced [_data] of a [PolylineRenderer] at paint time. *)
Record RendererData : Type := {
  points : list ViewPoint;
  options : PolylineOptions;
  tempPoint : option ViewPoint
}.

Section Draw.
Variables horizontalPixelRatio verticalPixelRatio : num.

Definition pixelX (a : num) : num := nround (nmul a horizontalPixelRatio).
Definition pixelY (a : num) : num := nround (nmul a verticalPixelRatio).

(** [ctx.beginPath(); ctx.arc(..., 0, 2 * Math.PI); ctx.fill();] *)
Definition marker (options : PolylineOptions) (a b : num) : list CanvasOp :=
  [ beginPath;
    arc (pixelX a) (pixelY b) (nmul (pointRadius options) horizontalPixelRatio)
        (nlit 0) (nmul (nlit 2) npi);
    fill ].

(** The loop [for (let i = 1; i < points.length; i++)] over the tail. *)
Fixpoint lineTo_each (rest : list ViewPoint) : list CanvasOp :=
  match rest with
  | [] => []
  | point :: rest' =>
      match vp_x point, vp_y point with
      | Some a, Some b => lineTo (pixelX a) (pixelY b) :: lineTo_each rest'
      | _, _ => lineTo_each rest'
      end
  end.

(** The loop [for (const point of points)] painting the markers. *)
Fixpoint marker_each (options : PolylineOptions) (pts : list ViewPoint) : list CanvasOp :=
  match pts with
  | [] => []
  | point :: pts' =>
      match vp_x point, vp_y point with
      | Some a, Some b => marker options a b ++ marker_each options pts'
      | _, _ => marker_each options pts'
      end
  end.

Definition lineTo_temp (tempPoint : option ViewPoint) : list CanvasOp :=
  match tempPoint with
  | Some t =>
      match vp_x t, vp_y t with
      | Some a, Some b => [lineTo (pixelX a) (pixelY b)]
      | _, _ => []
      end
  | None => []
  end.

Definition line_style (options : PolylineOptions) : list CanvasOp :=
  [ set_strokeStyle (color options);
    set_lineWidth (nmul (lineWidth options) horizontalPixelRatio) ] ++
  match lineStyle options with
  | dashed =>
      match dashPattern options with
      | Some pattern => [setLineDash (map (fun p => nmul p horizontalPixelRatio) pattern)]
      | None => [setLineDash [nmul (nlit 5) horizontalPixelRatio;
                              nmul (nlit 5) horizontalPixelRatio]]
      end
  | solid => []
  end.

(** [PolylineRenderer.draw]: the callback given to
    [useBitmapCoordinateSpace], as the list of context calls it makes.  The
    tests [firstPoint &&] and [point &&] hold of every element of a
    [ViewPoint[]]; a [dashPattern] array is truthy when present. *)
Definition draw (data : RendererData) : list CanvasOp :=
  let '{| points := points; options := options; tempPoint := tempPoint |} := data in
  save ::
  match points, tempPoint with
  | [], Some {| vp_x := Some a; vp_y := Some b |} =>
      [set_fillStyle (pointColor options)] ++ marker options a b ++ [restore]
  | [], _ => [restore]
  | firstPoint :: rest, _ =>
      line_style options ++
      [beginPath] ++
      match vp_x firstPoint, vp_y firstPoint with
      | Some a, Some b =>
          [moveTo (pixelX a) (pixelY b)] ++
          lineTo_each rest ++
          lineTo_temp tempPoint ++
          [stroke; set_fillStyle (pointColor options)] ++
          marker_each options points
      | _, _ => []
      end ++
      [restore]
  end.

End Draw.

(** ** Objects and the heap

    Arrays and option objects are reached through references: pushing to
    an array is seen by every holder of the reference, while [= []],
    [[...a]] and [{ ...a, ...b }] create a new object.  A heap is a list of
    cells addressed by position; allocation appends a cell.  Point objects
    ([{ x, y }], [{ time, price }]) are never written to after their
    creation and are kept as values. *)

Inductive Closure : Type :=
| ClickClosure     (* the arrow function stored in [_clickHandler] *)
| MoveClosure.     (* the arrow function stored in [_moveHandler] *)

Record Heap : Type := {
  point_arrays : list (list PolylinePoint);
  view_arrays : list (list ViewPoint);
  option_objects : list PolylineOptions;
  closures : list Closure
}.

Definition alloc {A : Type} (cells : list A) (v : A) : loc * list A :=
  (List.length cells, cells ++ [v]).

(** [class PolylineDrawingTool] (the toolbar fields left out). *)
Record PolylineDrawingTool : Type := {
  _chart : option ChartId;
  _series : option SeriesId;
  _points : loc;
  _options : loc;
  _active : bool;
  _clickHandler : option loc;
  _moveHandler : option loc;
  _tempPoint : option PolylinePoint;
  _requestUpdate : option CallbackId
}.

(** [class PolylinePaneView]; its [_source] is the one tool of the world. *)
Record PolylinePaneView : Type := {
  _viewPoints : loc;
  _tempViewPoint : option ViewPoint
}.

(** [class PolylineRenderer]: [_data] holds the references it was given. *)
Record PolylineRenderer : Type := {
  data_points : loc;
  data_options : loc;
  data_tempPoint : option ViewPoint
}.

(** Modelled from the spec: the coordinate mappings the host chart and
    series supply ([timeScale().timeToCoordinate], [priceToCoordinate],
    [coordinateToPrice]) under the current viewport.  Each answers with a
    coordinate or [null] ("unrepresentable"), or throws. *)
Record Viewport : Type := {
  timeToCoordinate : ChartId -> Time -> completion (option num);
  priceToCoordinate : SeriesId -> num -> completion (option num);
  coordinateToPrice : SeriesId -> num -> completion (option num)
}.

(** Modelled from the spec: the host chart, which is not part of the
    plugin source.  It keeps the registered click and pointer-move
    callbacks per chart, records each invocation of a repaint-request
    callback, and owns the viewport. *)
Record Host : Type := {
  click_subscribers : list (ChartId * loc);
  move_subscribers : list (ChartId * loc);
  repaint_requests : list CallbackId;
  viewport : Viewport
}.

Record World : Type := {
  tool : PolylineDrawingTool;
  view : PolylinePaneView;
  heap : Heap;
  host : Host
}.

(** *** Field updates *)

Definition with_tool (f : PolylineDrawingTool -> PolylineDrawingTool) (w : World) : World :=
  {| tool := f (tool w); view := view w; heap := heap w; host := host w |}.
Definition with_view (f : PolylinePaneView -> PolylinePaneView) (w : World) : World :=
  {| tool := tool w; view := f (view w); heap := heap w; host := host w |}.
Definition with_heap (f : Heap -> Heap) (w : World) : World :=
  {| tool := tool w; view := view w; heap := f (heap w); host := host w |}.
Definition with_host (f : Host -> Host) (w : World) : World :=
  {| tool := tool w; view := view w; heap := heap w; host := f (host w) |}.

Definition set_chart (v : option ChartId) (t : PolylineDrawingTool) : PolylineDrawingTool :=
  {| _chart := v; _series := _series t; _points := _points t; _options := _options t;
     _active := _active t; _clickHandler := _clickHandler t; _moveHandler := _moveHandler t;
     _tempPoint := _tempPoint t; _requestUpdate := _requestUpdate t |}.
Definition set_series (v : option SeriesId) (t : PolylineDrawingTool) : PolylineDrawingTool :=
  {| _chart := _chart t; _series := v; _points := _points t; _options := _options t;
     _active := _active t; _clickHandler := _clickHandler t; _moveHandler := _moveHandler t;
     _tempPoint := _tempPoint t; _requestUpdate := _requestUpdate t |}.
Definition set_points (v : loc) (t : PolylineDrawingTool) : PolylineDrawingTool :=
  {| _chart := _chart t; _series := _series t; _points := v; _options := _options t;
     _active := _active t; _clickHandler := _clickHandler t; _moveHandler := _moveHandler t;
     _tempPoint := _tempPoint t; _requestUpdate := _requestUpdate t |}.
Definition set_options (v : loc) (t : PolylineDrawingTool) : PolylineDrawingTool :=
  {| _chart := _chart t; _series := _series t; _points := _points t; _options := v;
     _active := _active t; _clickHandler := _clickHandler t; _moveHandler := _moveHandler t;
     _tempPoint := _tempPoint t; _requestUpdate := _requestUpdate t |}.
Definition set_active (v : bool) (t : PolylineDrawingTool) : PolylineDrawingTool :=
  {| _chart := _chart t; _series := _series t; _points := _points t; _options := _options t;
     _active := v; _clickHandler := _clickHandler t; _moveHandler := _moveHandler t;
     _tempPoint := _tempPoint t; _requestUpdate := _requestUpdate t |}.
Definition set_clickHandler (v : option loc) (t : PolylineDrawingTool) : PolylineDrawingTool :=
  {| _chart := _chart t; _series := _series t; _points := _points t; _options := _options t;
     _active := _active t; _clickHandler := v; _moveHandler := _moveHandler t;
     _tempPoint := _tempPoint t; _requestUpdate := _requestUpdate t |}.
Definition set_moveHandler (v : option loc) (t : PolylineDrawingTool) : PolylineDrawingTool :=
  {| _chart := _chart t; _series := _series t; _points := _points t; _options := _options t;
     _active := _active t; _clickHandler := _clickHandler t; _moveHandler := v;
     _tempPoint := _tempPoint t; _requestUpdate := _requestUpdate t |}.
Definition set_tempPoint (v : option PolylinePoint) (t : PolylineDrawingTool) : PolylineDrawingTool :=
  {| _chart := _chart t; _series := _series t; _points := _points t; _options := _options t;
     _active := _active t; _clickHandler := _clickHandler t; _moveHandler := _moveHandler t;
     _tempPoint := v; _requestUpdate := _requestUpdate t |}.
Definition set_requestUpdate (v : option CallbackId) (t : PolylineDrawingTool) : PolylineDrawingTool :=
  {| _chart := _chart t; _series := _series t; _points := _points t; _options := _options t;
     _active := _active t; _clickHandler := _clickHandler t; _moveHandler := _moveHandler t;
     _tempPoint := _tempPoint t; _requestUpdate := v |}.

Definition set_viewPoints (v : loc) (p : PolylinePaneView) : PolylinePaneView :=
  {| _viewPoints := v; _tempViewPoint := _tempViewPoint p |}.
Definition set_tempViewPoint (v : option ViewPoint) (p : PolylinePaneView) : PolylinePaneView :=
  {| _viewPoints := _viewPoints p; _tempViewPoint := v |}.

Definition set_point_arrays (v : list (list PolylinePoint)) (h : Heap) : Heap :=
  {| point_arrays := v; view_arrays := view_arrays h;
     option_objects := option_objects h; closures := closures h |}.
Definition set_view_arrays (v : list (list ViewPoint)) (h : Heap) : Heap :=
  {| point_arrays := point_arrays h; view_arrays := v;
     option_objects := option_objects h; closures := closures h |}.
Definition set_option_objects (v : list PolylineOptions) (h : Heap) : Heap :=
  {| point_arrays := point_arrays h; view_arrays := view_arrays h;
     option_objects := v; closures := closures h |}.
Definition set_closures (v : list Closure) (h : Heap) : Heap :=
  {| point_arrays := point_arrays h; view_arrays := view_arrays h;
     option_objects := option_objects h; closures := v |}.

Definition set_click_subscribers (v : list (ChartId * loc)) (h : Host) : Host :=
  {| click_subscribers := v; move_subscribers := move_subscribers h;
     repaint_requests := repaint_requests h; viewport := viewport h |}.
Definition set_move_subscribers (v : list (ChartId * loc)) (h : Host) : Host :=
  {| click_subscribers := click_subscribers h; move_subscribers := v;
     repaint_requests := repaint_requests h; viewport := viewport h |}.
Definition set_repaint_requests (v : list CallbackId) (h : Host) : Host :=
  {| click_subscribers := click_subscribers h; move_subscribers := move_subscribers h;
     repaint_requests := v; viewport := viewport h |}.
Definition set_viewport (v : Viewport) (h : Host) : Host :=
  {| click_subscribers := click_subscribers h; move_subscribers := move_subscribers h;
     repaint_requests := repaint_requests h; viewport := v |}.

(** ** The monad of method bodies: state that survives a [throw] *)

Definition M (A : Type) : Type := World -> World * completion A.

Definition ret {A : Type} (a : A) : M A := fun w => (w, Normal a).

Definition bind {A B : Type} (m : M A) (k : A -> M B) : M B :=
  fun w =>
    match m w with
    | (w', Normal a) => k a w'
    | (w', Throw) => (w', Throw)
    end.

Definition get : M World := fun w => (w, Normal w).
Definition modify (f : World -> World) : M unit := fun w => (f w, Normal tt).

(** A call into the host that returns or throws without touching the world. *)
Definition call {A : Type} (c : completion A) : M A := fun w => (w, c).

(** [try { body } catch (err) { handler }] *)
Definition try_catch (body handler : M unit) : M unit :=
  fun w =>
    match body w with
    | (w', Normal a) => (w', Normal a)
    | (w', Throw) => handler w'
    end.

#[export] Instance M_ret : MRet M := @ret.
#[export] Instance M_bind : MBind M := fun A B k m => bind m k.

Fixpoint forEach {A : Type} (l : list A) (body : A -> M unit) : M unit :=
  match l with
  | [] => ret tt
  | a :: l' => body a;; forEach l' body
  end.

Definition state_after {A : Type} (m : M A) (w : World) : World := fst (m w).
Definition result_of {A : Type} (m : M A) (w : World) : completion A := snd (m w).

(** ** Host calls *)

(** Modelled from the spec: [IChartApi.subscribeClick] of the host, which
    is not part of the plugin source; registering appends the callback to
    the chart's click subscribers. *)
Definition subscribeClick (chart : ChartId) (handler : loc) : M unit :=
  modify (with_host (fun h => set_click_subscribers (click_subscribers h ++ [(chart, handler)]) h)).

(** Modelled from the spec: [IChartApi.subscribeCrosshairMove] of the host;
    registering appends the callback to the chart's pointer-move
    subscribers. *)
Definition subscribeCrosshairMove (chart : ChartId) (handler : loc) : M unit :=
  modify (with_host (fun h => set_move_subscribers (move_subscribers h ++ [(chart, handler)]) h)).

(** Modelled from the spec: [IChartApi.unsubscribeClick] of the host;
    unregistering removes the callback from the chart's click
    subscribers. *)
Definition unsubscribeClick (chart : ChartId) (handler : loc) : M unit :=
  modify (with_host (fun h =>
    set_click_subscribers (filter (fun s => s <> (chart, handler)) (click_subscribers h)) h)).

(** Modelled from the spec: [IChartApi.unsubscribeCrosshairMove] of the
    host; unregistering removes the callback from the chart's pointer-move
    subscribers. *)
Definition unsubscribeCrosshairMove (chart : ChartId) (handler : loc) : M unit :=
  modify (with_host (fun h =>
    set_move_subscribers (filter (fun s => s <> (chart, handler)) (move_subscribers h)) h)).

(** Modelled from the spec: the repaint-request callback handed over by
    [attached]; the host records each invocation. *)
Definition requestUpdate (callback : CallbackId) : M unit :=
  modify (with_host (fun h => set_repaint_requests (repaint_requests h ++ [callback]) h)).

(** ** PolylinePaneView *)

(** The committed points, read through [this._source._points]. *)
Definition committed (w : World) : list PolylinePoint :=
  default [] (point_arrays (heap w) !! _points (tool w)).

(** The cached view points, read through [this._viewPoints]. *)
Definition cached (w : World) : list ViewPoint :=
  default [] (view_arrays (heap w) !! _viewPoints (view w)).

(** [this._viewPoints.push(p)] *)
Definition push_viewPoint (p : ViewPoint) : M unit :=
  modify (fun w =>
    with_heap (fun h =>
      set_view_arrays (alter (fun a => a ++ [p]) (_viewPoints (view w)) (view_arrays h)) h) w).

(** The body of the [forEach] callback in [update]. *)
Definition project_point (series : SeriesId) (chart : ChartId) (point : PolylinePoint) : M unit :=
  w ← get;
  y ← call (priceToCoordinate (viewport (host w)) series (price point));
  x ← call (timeToCoordinate (viewport (host w)) chart (time point));
  match x, y with
  | Some a, Some b => push_viewPoint {| vp_x := Some a; vp_y := Some b |}
  | _, _ => mret tt
  end.

(** [this._viewPoints = []] *)
Definition fresh_viewPoints : M unit :=
  modify (fun w =>
    let '(l, cells) := alloc (view_arrays (heap w)) [] in
    with_view (set_viewPoints l) (with_heap (set_view_arrays cells) w)).

(** The body of the [try] block that converts the temp point. *)
Definition project_temp (series : SeriesId) (chart : ChartId) (tempPoint : PolylinePoint) : M unit :=
  w ← get;
  y ← call (priceToCoordinate (viewport (host w)) series (price tempPoint));
  x ← call (timeToCoordinate (viewport (host w)) chart (time tempPoint));
  modify (with_view (set_tempViewPoint
    match x, y with
    | Some a, Some b => Some {| vp_x := Some a; vp_y := Some b |}
    | _, _ => None
    end)).

(** [PolylinePaneView.update] *)
Definition update : M unit :=
  w ← get;
  match _series (tool w), _chart (tool w) with
  | Some series, Some chart =>
      try_catch
        (fresh_viewPoints;;
         w ← get;
         forEach (committed w) (project_point series chart))
        (mret tt);;
      w ← get;
      match _tempPoint (tool w) with
      | Some tempPoint =>
          try_catch
            (project_temp series chart tempPoint)
            (modify (with_view (set_tempViewPoint None)))
      | None => modify (with_view (set_tempViewPoint None))
      end
  | _, _ => mret tt
  end.

(** [PolylinePaneView.renderer]: the new renderer receives the references
    held by the view and the tool. *)
Definition renderer : M PolylineRenderer :=
  w ← get;
  mret {| data_points := _viewPoints (view w);
          data_options := _options (tool w);
          data_tempPoint := _tempViewPoint (view w) |}.

(** What a renderer's [draw] reads through [this._data] in world [w]. *)
Definition observe (w : World) (r : PolylineRenderer) : option RendererData :=
  pts ← view_arrays (heap w) !! data_points r;
  opts ← option_objects (heap w) !! data_options r;
  Some {| points := pts; options := opts; tempPoint := data_tempPoint r |}.

(** ** PolylineDrawingTool *)

Record Point : Type := {
  pt_x : num;
  pt_y : num
}.

(** The fields of [MouseEventParams] read by the handlers; [None] is
    [undefined]. *)
Record MouseEventParams : Type := {
  ev_time : option Time;
  ev_point : option Point
}.

(** [_updateView] *)
Definition _updateView : M unit :=
  w ← get;
  match _requestUpdate (tool w) with
  | Some callback => requestUpdate callback
  | None => mret tt
  end.

(** [this._points.push(point)] *)
Definition push_point (point : PolylinePoint) : M unit :=
  modify (fun w =>
    with_heap (fun h =>
      set_point_arrays (alter (fun a => a ++ [point]) (_points (tool w)) (point_arrays h)) h) w).

(** [_addPoint]; the [undefined]/[null] guard on [time] and [price] cannot
    fire on a value of type [PolylinePoint]. *)
Definition _addPoint (point : PolylinePoint) : M unit :=
  push_point point;;
  update;;
  _updateView.

(** The arrow function assigned to [_clickHandler] in [activate];
    [!param.time] holds of [undefined] and of a falsy time. *)
Definition clickHandler (param : MouseEventParams) : M unit :=
  w ← get;
  if negb (_active (tool w)) then mret tt else
  match ev_point param with
  | None => mret tt
  | Some point =>
      match ev_time param with
      | None => mret tt
      | Some t =>
          if negb (time_truthy t) then mret tt else
          match _series (tool w) with
          | None => mret tt
          | Some series =>
              price ← call (coordinateToPrice (viewport (host w)) series (pt_y point));
              match price with
              | None => mret tt
              | Some p => _addPoint {| time := t; price := p |}
              end
          end
      end
  end.

(** The arrow function assigned to [_moveHandler] in [activate]. *)
Definition moveHandler (param : MouseEventParams) : M unit :=
  w ← get;
  match _active (tool w), ev_point param, ev_time param, _series (tool w) with
  | true, Some point, Some t, Some series =>
      if negb (time_truthy t)
      then modify (with_tool (set_tempPoint None));; _updateView
      else
        price ← call (coordinateToPrice (viewport (host w)) series (pt_y point));
        match price with
        | None => modify (with_tool (set_tempPoint None));; _updateView
        | Some p =>
            modify (with_tool (set_tempPoint (Some {| time := t; price := p |})));;
            _updateView
        end
  | _, _, _, _ => modify (with_tool (set_tempPoint None));; _updateView
  end.

(** Creation of an arrow function object. *)
Definition new_closure (c : Closure) : M loc :=
  w ← get;
  let '(l, cells) := alloc (closures (heap w)) c in
  modify (with_heap (set_closures cells));;
  mret l.

(** [activate] *)
Definition activate (chart : ChartId) (series : SeriesId) : M unit :=
  w ← get;
  if _active (tool w) then mret tt else
  modify (with_tool (set_chart (Some chart)));;
  modify (with_tool (set_series (Some series)));;
  modify (with_tool (set_active true));;
  click ← new_closure ClickClosure;
  modify (with_tool (set_clickHandler (Some click)));;
  move ← new_closure MoveClosure;
  modify (with_tool (set_moveHandler (Some move)));;
  subscribeClick chart click;;
  subscribeCrosshairMove chart move.

(** [deactivate] *)
Definition deactivate : M unit :=
  w ← get;
  match _active (tool w), _chart (tool w) with
  | true, Some chart =>
      match _clickHandler (tool w) with
      | Some handler =>
          unsubscribeClick chart handler;;
          modify (with_tool (set_clickHandler None))
      | None => mret tt
      end;;
      match _moveHandler (tool w) with
      | Some handler =>
          unsubscribeCrosshairMove chart handler;;
          modify (with_tool (set_moveHandler None))
      | None => mret tt
      end;;
      modify (with_tool (set_active false));;
      modify (with_tool (set_chart None));;
      modify (with_tool (set_series None));;
      modify (with_tool (set_tempPoint None));;
      _updateView
  | _, _ => mret tt
  end.

(** [this._points = []] *)
Definition fresh_points : M unit :=
  modify (fun w =>
    let '(l, cells) := alloc (point_arrays (heap w)) [] in
    with_tool (set_points l) (with_heap (set_point_arrays cells) w)).

(** [clearPoints] *)
Definition clearPoints : M unit :=
  fresh_points;;
  modify (with_tool (set_tempPoint None));;
  _updateView.

(** [this._options = { ...this._options, ...options }] *)
Definition merge_options (options : PartialOptions) : M unit :=
  modify (fun w =>
    let current := default defaultOptions (option_objects (heap w) !! _options (tool w)) in
    let '(l, cells) := alloc (option_objects (heap w)) (spread current options) in
    with_tool (set_options l) (with_heap (set_option_objects cells) w)).

(** [applyOptions] *)
Definition applyOptions (options : PartialOptions) : M unit :=
  merge_options options;;
  _updateView.

(** [getPoints]: [[...this._points]] is a new array with the same elements
    in the same order.  The elements are point records that no code of the
    plugin writes to; they are held by value here, so what is modelled of
    the copy is the array, not the identity of the points in it. *)
Definition getPoints : M loc :=
  w ← get;
  let '(l, cells) := alloc (point_arrays (heap w)) (committed w) in
  modify (with_heap (set_point_arrays cells));;
  mret l.

(** [paneViews]: [_paneViews] always holds the one view. *)
Definition paneViews : M unit := update.

(** [attached] *)
Definition attached (callback : CallbackId) : M unit :=
  modify (with_tool (set_requestUpdate (Some callback))).

(** [detached] *)
Definition detached : M unit :=
  deactivate;;
  modify (with_tool (set_requestUpdate None)).

(** [new PolylineDrawingTool(options)] in a world with nothing else in it:
    the constructor creates the options object, the two empty arrays and
    the pane view. *)
Definition new_PolylineDrawingTool (options : PartialOptions) (vp : Viewport) : World := {|
  tool := {| _chart := None; _series := None; _points := 0; _options := 0;
             _active := false; _clickHandler := None; _moveHandler := None;
             _tempPoint := None; _requestUpdate := None |};
  view := {| _viewPoints := 0; _tempViewPoint := None |};
  heap := {| point_arrays := [[]]; view_arrays := [[]];
             option_objects := [spread defaultOptions options]; closures := [] |};
  host := {| click_subscribers := []; move_subscribers := [];
             repaint_requests := []; viewport := vp |}
|}.

(** ** The host driving the tool *)

(** Calling an arrow function created by [activate]. *)
Definition call_closure (f : loc) (param : MouseEventParams) : M unit :=
  w ← get;
  match closures (heap w) !! f with
  | Some ClickClosure => clickHandler param
  | Some MoveClosure => moveHandler param
  | None => mret tt
  end.

(** Modelled from the spec: how the host delivers a notification, namely
    to every callback registered for it on the chart, in registration
    order. *)
Definition notify (subscribers : list (ChartId * loc)) (chart : ChartId)
    (param : MouseEventParams) : M unit :=
  forEach (filter (fun s => s.1 = chart) subscribers) (fun s => call_closure s.2 param).

(** Modelled from the spec: a click notification of the host chart. *)
Definition host_click (chart : ChartId) (param : MouseEventParams) : M unit :=
  w ← get; notify (click_subscribers (host w)) chart param.

(** Modelled from the spec: a pointer-move notification of the host
    chart. *)
Definition host_crosshairMove (chart : ChartId) (param : MouseEventParams) : M unit :=
  w ← get; notify (move_subscribers (host w)) chart param.

(** Modelled from the spec: the host changing its viewport (pan, zoom,
    resize, autoscale), which it may do at any time. *)
Definition host_viewport_change (vp : Viewport) : M unit :=
  modify (with_host (set_viewport vp)).

(** A caller overwriting an array it holds a reference to. *)
Definition write_point_array (l : loc) (contents : list PolylinePoint) : M unit :=
  modify (with_heap (fun h => set_point_arrays (<[l := contents]> (point_arrays h)) h)).

(** ** Vocabulary of the statements *)

(** The view point a committed point projects to under [vp]: [Normal None]
    when a mapping answers [null], [Throw] when a mapping throws. *)
Definition projection (vp : Viewport) (series : SeriesId) (chart : ChartId)
    (point : PolylinePoint) : completion (option ViewPoint) :=
  match priceToCoordinate vp series (price point) with
  | Throw => Throw
  | Normal y =>
      match timeToCoordinate vp chart (time point) with
      | Throw => Throw
      | Normal x =>
          Normal match x, y with
                 | Some a, Some b => Some {| vp_x := Some a; vp_y := Some b |}
                 | _, _ => None
                 end
      end
  end.

(** The projections of the points that resolve, in order, up to the first
    point on which a host mapping throws. *)
Fixpoint projected (vp : Viewport) (series : SeriesId) (chart : ChartId)
    (ps : list PolylinePoint) : list ViewPoint :=
  match ps with
  | [] => []
  | point :: ps' =>
      match projection vp series chart point with
      | Throw => []
      | Normal None => projected vp series chart ps'
      | Normal (Some v) => v :: projected vp series chart ps'
      end
  end.

Definition temp_projected (vp : Viewport) (series : SeriesId) (chart : ChartId)
    (tempPoint : option PolylinePoint) : option ViewPoint :=
  match tempPoint with
  | Some t =>
      match projection vp series chart t with
      | Normal v => v
      | Throw => None
      end
  | None => None
  end.

(** Every committed point maps to a coordinate pair under [vp]. *)
Definition all_projectable (vp : Viewport) (series : SeriesId) (chart : ChartId)
    (ps : list PolylinePoint) : Prop :=
  Forall (fun point => exists v, projection vp series chart point = Normal (Some v)) ps.

(** The calls of a paint that extend the path, and those that draw a
    circle. *)
Definition is_path_call (op : CanvasOp) : bool :=
  match op with
  | moveTo _ _ | lineTo _ _ => true
  | _ => false
  end.

Definition is_arc_call (op : CanvasOp) : bool :=
  match op with
  | arc _ _ _ _ _ => true
  | _ => false
  end.

Definition path_calls (ops : list CanvasOp) : list CanvasOp := List.filter is_path_call ops.
Definition arc_calls (ops : list CanvasOp) : list CanvasOp := List.filter is_arc_call ops.

(** The pixel pairs of the resolved entries of a view point sequence. *)
Fixpoint pixels (pts : list ViewPoint) : list (num * num) :=
  match pts with
  | [] => []
  | point :: pts' =>
      match vp_x point, vp_y point with
      | Some a, Some b => (a, b) :: pixels pts'
      | _, _ => pixels pts'
      end
  end.

Definition marker_arc (hpr vpr : num) (options : PolylineOptions) (p : num * num) : CanvasOp :=
  arc (pixelX hpr p.1) (pixelY vpr p.2) (nmul (pointRadius options) hpr)
      (nlit 0) (nmul (nlit 2) npi).

Definition segment_to (hpr vpr : num) (p : num * num) : CanvasOp :=
  lineTo (pixelX hpr p.1) (pixelY vpr p.2).

Definition start_at (hpr vpr : num) (p : num * num) : CanvasOp :=
  moveTo (pixelX hpr p.1) (pixelY vpr p.2).

(** The logical point a click commits, if the handler accepts it: the
    event carries a point and a truthy time, and the price conversion
    returns a price. *)
Definition click_point (vp : Viewport) (series : SeriesId) (param : MouseEventParams)
    : option PolylinePoint :=
  match ev_point param, ev_time param with
  | Some point, Some t =>
      if time_truthy t then
        match coordinateToPrice vp series (pt_y point) with
        | Normal (Some p) => Some {| time := t; price := p |}
        | _ => None
        end
      else None
  | _, _ => None
  end.

(** A sequence of click notifications on one chart. *)
Definition host_clicks (chart : ChartId) (params : list MouseEventParams) : M unit :=
  forEach params (host_click chart).

(** Calls that may follow the creation of a renderer. *)
Inductive LaterCall : Type :=
| call_update
| call_applyOptions (options : PartialOptions)
| call_viewport_change (vp : Viewport).

Definition later_call (c : LaterCall) : M unit :=
  match c with
  | call_update => update
  | call_applyOptions options => applyOptions options
  | call_viewport_change vp => host_viewport_change vp
  end.

(** The world a projection pass with both handles present ends in: a new
    array holding the resolved projections becomes the cache, and the temp
    view point is recomputed. *)
Definition projection_pass (series : SeriesId) (chart : ChartId) (w : World) : World := {|
  tool := tool w;
  view := {| _viewPoints := List.length (view_arrays (heap w));
             _tempViewPoint :=
               temp_projected (viewport (host w)) series chart (_tempPoint (tool w)) |};
  heap := set_view_arrays
            (view_arrays (heap w) ++
             [projected (viewport (host w)) series chart (committed w)]) (heap w);
  host := host w
|}.

(** ** Reachable worlds and their invariant *)

Definition subscriptions_consistent (w : World) : Prop :=
  match _active (tool w) with
  | true =>
      exists chart series click move,
        _chart (tool w) = Some chart /\ _series (tool w) = Some series /\
        _clickHandler (tool w) = Some click /\ _moveHandler (tool w) = Some move /\
        closures (heap w) !! click = Some ClickClosure /\
        closures (heap w) !! move = Some MoveClosure /\
        click_subscribers (host w) = [(chart, click)] /\
        move_subscribers (host w) = [(chart, move)]
  | false =>
      _chart (tool w) = None /\ _series (tool w) = None /\
      _clickHandler (tool w) = None /\ _moveHandler (tool w) = None /\
      click_subscribers (host w) = [] /\ move_subscribers (host w) = []
  end.

Definition temp_resolved (t : option ViewPoint) : Prop :=
  match t with
  | Some v => resolved v = true
  | None => True
  end.

Record inv (w : World) : Prop := {
  inv_points : _points (tool w) < List.length (point_arrays (heap w));
  inv_options : _options (tool w) < List.length (option_objects (heap w));
  inv_viewPoints : _viewPoints (view w) < List.length (view_arrays (heap w));
  inv_cached : Forall (fun v => resolved v = true) (cached w);
  inv_temp : temp_resolved (_tempViewPoint (view w));
  inv_subscriptions : subscriptions_consistent w
}.

(** The worlds the public interface and the host can bring about. *)
Inductive reachable : World -> Prop :=
| reach_new options vp :
    reachable (new_PolylineDrawingTool options vp)
| reach_attached w callback :
    reachable w -> reachable (state_after (attached callback) w)
| reach_detached w :
    reachable w -> reachable (state_after detached w)
| reach_activate w chart series :
    reachable w -> reachable (state_after (activate chart series) w)
| reach_deactivate w :
    reachable w -> reachable (state_after deactivate w)
| reach_clearPoints w :
    reachable w -> reachable (state_after clearPoints w)
| reach_applyOptions w options :
    reachable w -> reachable (state_after (applyOptions options) w)
| reach_getPoints w :
    reachable w -> reachable (state_after getPoints w)
| reach_addPoint w point :
    reachable w -> reachable (state_after (_addPoint point) w)
| reach_paneViews w :
    reachable w -> reachable (state_after paneViews w)
| reach_click w chart param :
    reachable w -> reachable (state_after (host_click chart param) w)
| reach_crosshairMove w chart param :
    reachable w -> reachable (state_after (host_crosshairMove chart param) w)
| reach_viewport_change w vp :
    reachable w -> reachable (state_after (host_viewport_change vp) w)
| reach_write w l contents :
    reachable w -> l <> _points (tool w) ->
    reachable (state_after (write_point_array l contents) w).

End Model.

(** ** Concrete worlds and payloads over integer coordinates *)

(** A viewport showing times below 1000: a later time maps to [null];
    prices and pixel rows coincide. *)
Definition narrow_viewport : Viewport (num:=Z) := {|
  timeToCoordinate := fun _ t =>
    match t with
    | UTCTimestamp n => Normal (if Z.ltb n 1000 then Some n else None)
    | _ => Normal None
    end;
  priceToCoordinate := fun _ p => Normal (Some p);
  coordinateToPrice := fun _ c => Normal (Some c)
|}.

(** A viewport in which every time is visible, at twice the scale. *)
Definition wide_viewport : Viewport (num:=Z) := {|
  timeToCoordinate := fun _ t =>
    match t with
    | UTCTimestamp n => Normal (Some (2 * n)%Z)
    | _ => Normal None
    end;
  priceToCoordinate := fun _ p => Normal (Some (2 * p)%Z);
  coordinateToPrice := fun _ c => Normal (Some (c / 2)%Z)
|}.

Definition no_options : PartialOptions (num:=Z) := {|
  p_color := None; p_lineWidth := None; p_lineStyle := None;
  p_dashPattern := None; p_pointRadius := None; p_pointColor := None
|}.

Definition red_options : PartialOptions (num:=Z) := {|
  p_color := Some "#FF0000"%string; p_lineWidth := None; p_lineStyle := Some dashed;
  p_dashPattern := None; p_pointRadius := None; p_pointColor := Some "#FF0000"%string
|}.

(** A click or pointer move at time [t] on pixel row [row]. *)
Definition pointer_at (t row : Z) : MouseEventParams (num:=Z) := {|
  ev_time := Some (UTCTimestamp t);
  ev_point := Some {| pt_x := 0%Z; pt_y := row |}
|}.

(** A tool that was constructed and activated on chart 1, series 1, and
    never attached to a series. *)
Definition world_active : World (num:=Z) :=
  state_after (activate 1 1) (new_PolylineDrawingTool no_options narrow_viewport).

(** ... then received one click inside the visible range. *)
Definition world_one_point : World (num:=Z) :=
  state_after (host_click 1 (pointer_at 100 5)) world_active.

(** ... then was deactivated. *)
Definition world_deactivated : World (num:=Z) :=
  state_after deactivate world_one_point.

(** An attached, active tool with one visible committed point, one
    committed point outside the visible range, and the pointer hovering,
    after the host polled [paneViews()]. *)
Definition world_out_of_range : World (num:=Z) :=
  state_after paneViews
    (state_after (host_crosshairMove 1 (pointer_at 300 9))
       (state_after (host_click 1 (pointer_at 2000 7))
          (state_after (host_click 1 (pointer_at 100 5))
             (state_after (activate 1 1)
                (state_after (attached 4)
                   (new_PolylineDrawingTool no_options narrow_viewport)))))).

Definition null_point : ViewPoint (num:=Z) := {| vp_x := None; vp_y := None |}.
Definition pixel_point (a b : Z) : ViewPoint (num:=Z) := {| vp_x := Some a; vp_y := Some b |}.

(** A payload whose first committed point is unresolved. *)
Definition payload_first_unresolved : RendererData (num:=Z) := {|
  points := [null_point; pixel_point 10 20; pixel_point 30 40];
  options := defaultOptions;
  tempPoint := None
|}.

(** A payload whose second committed point is unresolved. *)
Definition payload_middle_unresolved : RendererData (num:=Z) := {|
  points := [pixel_point 10 20; null_point; pixel_point 30 40];
  options := defaultOptions;
  tempPoint := Some (pixel_point 50 60)
|}.

(** The payload of the preview state: no committed point, the pointer on
    the plot. *)
Definition payload_preview : RendererData (num:=Z) := {|
  points := [];
  options := defaultOptions;
  tempPoint := Some (pixel_point 50 60)
|}.

(** ** The toolbar listeners and single steps of the interface *)

Section Toolbar.
Context {num : Type} {JN : JsNumber num}.

(** The click listener [_createToolbarButton] installs on the draw button
    (the restyling of the button left out). *)
Definition toolbar_button_click : M (num:=num) unit :=
  w ← get (num:=num);
  if _active (tool w) then deactivate
  else
    match _chart (tool w), _series (tool w) with
    | Some chart, Some series => activate chart series
    | _, _ => mret tt
    end.

(** The change listener of the colour picker, with the picked [value]. *)
Definition colorPicker_change (value : string) : M (num:=num) unit :=
  applyOptions {| p_color := Some value; p_lineWidth := None; p_lineStyle := None;
                  p_dashPattern := None; p_pointRadius := None;
                  p_pointColor := Some value |}.

(** The click listener of the clear button. *)
Definition clearButton_click : M (num:=num) unit := clearPoints.

(** The style options in force, read through [this._options]. *)
Definition style (w : World (num:=num)) : PolylineOptions :=
  default defaultOptions (option_objects (heap w) !! _options (tool w)).

(** One call of the public interface, of a toolbar listener or of the
    host. *)
Inductive step : World (num:=num) -> World (num:=num) -> Prop :=
| step_attached w callback : step w (state_after (attached callback) w)
| step_detached w : step w (state_after detached w)
| step_activate w chart series : step w (state_after (activate chart series) w)
| step_deactivate w : step w (state_after deactivate w)
| step_clearPoints w : step w (state_after clearPoints w)
| step_applyOptions w options : step w (state_after (applyOptions options) w)
| step_getPoints w : step w (state_after getPoints w)
| step_addPoint w point : step w (state_after (_addPoint point) w)
| step_paneViews w : step w (state_after paneViews w)
| step_click w chart param : step w (state_after (host_click chart param) w)
| step_crosshairMove w chart param :
    step w (state_after (host_crosshairMove chart param) w)
| step_viewport_change w vp : step w (state_after (host_viewport_change vp) w)
| step_write w l contents :
    l <> _points (tool w) -> step w (state_after (write_point_array l contents) w)
| step_toolbar_button w : step w (state_after toolbar_button_click w)
| step_colorPicker w value : step w (state_after (colorPicker_change value) w)
| step_clearButton w : step w (state_after clearButton_click w).

(** Every view point array and options object of [w] is still there,
    with the same content, in [w']. *)
Definition extends (w w' : World (num:=num)) : Prop :=
  view_arrays (heap w) `prefix_of` view_arrays (heap w') /\
  option_objects (heap w) `prefix_of` option_objects (heap w').

(** The calls of a paint that stroke or fill the current path. *)
Definition is_stroke_call (op : CanvasOp (num:=num)) : bool :=
  match op with
  | stroke => true
  | _ => false
  end.

Definition is_fill_call (op : CanvasOp (num:=num)) : bool :=
  match op with
  | fill => true
  | _ => false
  end.

(** The calls that push or pop the drawing state. *)
Definition is_state_call (op : CanvasOp (num:=num)) : bool :=
  match op with
  | save | restore => true
  | _ => false
  end.

End Toolbar.

(** An attached tool that was never activated. *)
Definition world_attached_idle : World (num:=Z) :=
  state_after (attached 4) (new_PolylineDrawingTool no_options narrow_viewport).

(** A viewport whose price conversion throws. *)
Definition throwing_viewport : Viewport (num:=Z) := {|
  timeToCoordinate := fun _ _ => Throw;
  priceToCoordinate := fun _ _ => Throw;
  coordinateToPrice := fun _ _ => Throw
|}.

(** The attached, active tool with two committed points under a host whose
    mappings have started to throw. *)
Definition world_throwing : World (num:=Z) :=
  state_after (host_viewport_change throwing_viewport) world_out_of_range.

(** * Properties *)

Section Properties.
Context {num : Type} {JN : JsNumber num}.
Implicit Types (w : World (num:=num)) (ps : list (PolylinePoint (num:=num))).
Implicit Types (vp : Viewport (num:=num)) (data : RendererData (num:=num)).
Implicit Types (param : MouseEventParams (num:=num)).

Ltac unfold_M :=
  unfold mbind, M_bind, mret, M_ret, bind, ret, get, modify, call, try_catch in *.

Ltac open_world w :=
  destruct w as [[? ? ? ? ? ? ? ? ?] [? ?] [? ? ? ?] [? ? ? ?]]; simpl in *.

(** ** The projection pass *)

Lemma list_insert_after_alter {A : Type} (f : A -> A) (l : list A) (i : nat) (a : A) :
  <[i := a]> (alter f i l) = <[i := a]> l.
Proof.
  revert i. induction l as [|b l IH]; intros [|i]; simpl; try reflexivity.
  f_equal. apply IH.
Qed.

Lemma world_view_array_id w acc :
  view_arrays (heap w) !! _viewPoints (view w) = Some acc ->
  with_heap (set_view_arrays (<[_viewPoints (view w) := acc]> (view_arrays (heap w)))) w = w.
Proof.
  intros Hacc. open_world w. unfold with_heap, set_view_arrays; simpl.
  by rewrite list_insert_id.
Qed.

Lemma forEach_cons {A : Type} (a : A) (l : list A) (body : A -> M unit) w :
  forEach (a :: l) body w =
  match body a w with
  | (w', Normal _) => forEach l body w'
  | (w', Throw) => (w', Throw)
  end.
Proof. reflexivity. Qed.

Lemma project_point_eq series chart point w :
  project_point series chart point w =
  match projection (viewport (host w)) series chart point with
  | Throw => (w, Throw)
  | Normal None => (w, Normal tt)
  | Normal (Some v) => push_viewPoint v w
  end.
Proof.
  unfold project_point, projection. unfold_M.
  destruct (priceToCoordinate (viewport (host w)) series (price point)) as [[b|]|],
    (timeToCoordinate (viewport (host w)) chart (time point)) as [[a|]|];
    reflexivity.
Qed.

Lemma forEach_project series chart ps :
  forall w acc,
    view_arrays (heap w) !! _viewPoints (view w) = Some acc ->
    exists r,
      forEach ps (project_point series chart) w =
      (with_heap (set_view_arrays
         (<[_viewPoints (view w) := acc ++ projected (viewport (host w)) series chart ps]>
            (view_arrays (heap w)))) w, r).
Proof.
  induction ps as [|point ps IH]; intros w acc Hacc.
  - exists (Normal tt). simpl. rewrite app_nil_r, world_view_array_id by done. done.
  - rewrite forEach_cons, project_point_eq. simpl.
    destruct (projection _ series chart point) as [[v|]|].
    + unfold push_viewPoint, modify.
      set (w1 := with_heap _ w).
      destruct (IH w1 (acc ++ [v])) as [r Hr].
      { subst w1. simpl. by rewrite list_lookup_alter_eq, Hacc. }
      exists r. rewrite Hr. f_equal. subst w1. open_world w.
      unfold with_heap, set_view_arrays; simpl. do 2 f_equal.
      rewrite <- (assoc_L (++)). simpl.
      apply list_insert_after_alter.
    + apply (IH w acc Hacc).
    + exists Throw. by rewrite app_nil_r, world_view_array_id.
Qed.

Lemma update_absent w :
  _series (tool w) = None \/ _chart (tool w) = None ->
  update w = (w, Normal tt).
Proof.
  intros Habsent. unfold update. unfold_M.
  destruct (_series (tool w)), (_chart (tool w)); try reflexivity.
  destruct Habsent; discriminate.
Qed.

Lemma update_present w series chart :
  _series (tool w) = Some series -> _chart (tool w) = Some chart ->
  update w = (projection_pass series chart w, Normal tt).
Proof.
  intros Hs Hc. unfold update. unfold_M. rewrite Hs, Hc.
  unfold fresh_viewPoints, modify, alloc.
  set (w1 := with_view _ _).
  destruct (forEach_project series chart (committed w1) w1 []) as [r Hr].
  { subst w1. simpl. by rewrite lookup_app_r, Nat.sub_diag. }
  rewrite Hr. clear Hr.
  assert (Hpass : with_heap (set_view_arrays
            (<[_viewPoints (view w1) := [] ++ projected (viewport (host w1)) series chart
                 (committed w1)]> (view_arrays (heap w1)))) w1 =
          {| tool := tool w;
             view := {| _viewPoints := List.length (view_arrays (heap w));
                        _tempViewPoint := _tempViewPoint (view w) |};
             heap := set_view_arrays
                       (view_arrays (heap w) ++
                        [projected (viewport (host w)) series chart (committed w)]) (heap w);
             host := host w |}).
  { subst w1. open_world w. unfold with_heap, with_view, set_view_arrays, committed; simpl.
    do 2 f_equal.
    by rewrite insert_app_r_alt, Nat.sub_diag by done. }
  rewrite Hpass. clear Hpass w1.
  assert (Hdone : forall t,
    (with_view (set_tempViewPoint t)
       {| tool := tool w;
          view := {| _viewPoints := List.length (view_arrays (heap w));
                     _tempViewPoint := _tempViewPoint (view w) |};
          heap := set_view_arrays
                    (view_arrays (heap w) ++
                     [projected (viewport (host w)) series chart (committed w)]) (heap w);
          host := host w |}) =
    {| tool := tool w;
       view := {| _viewPoints := List.length (view_arrays (heap w)); _tempViewPoint := t |};
       heap := set_view_arrays
                 (view_arrays (heap w) ++
                  [projected (viewport (host w)) series chart (committed w)]) (heap w);
       host := host w |}) by reflexivity.
  unfold projection_pass, temp_projected.
  destruct r as [[]|]; simpl; destruct (_tempPoint (tool w)) as [t|]; simpl;
    try (by rewrite Hdone);
    unfold project_temp, projection; unfold_M; simpl;
    destruct (priceToCoordinate (viewport (host w)) series (price t)) as [[b|]|],
      (timeToCoordinate (viewport (host w)) chart (time t)) as [[a|]|];
    simpl; by rewrite ?Hdone.
Qed.

Lemma projected_resolved vp series chart ps :
  Forall (fun v => resolved v = true) (projected vp series chart ps).
Proof.
  induction ps as [|point ps IH]; simpl; [constructor|].
  unfold projection.
  destruct (priceToCoordinate vp series (price point)) as [[b|]|],
    (timeToCoordinate vp chart (time point)) as [[a|]|];
    try assumption; try constructor; auto.
Qed.

Lemma projected_length vp series chart ps :
  List.length (projected vp series chart ps) <= List.length ps.
Proof.
  induction ps as [|point ps IH]; simpl; [lia|].
  destruct (projection vp series chart point) as [[v|]|]; simpl; lia.
Qed.

Lemma projected_all_projectable vp series chart ps :
  all_projectable vp series chart ps ->
  List.length (projected vp series chart ps) = List.length ps.
Proof.
  induction 1 as [|point ps [v Hv] _ IH]; simpl; [reflexivity|].
  rewrite Hv. simpl. by rewrite IH.
Qed.

Lemma temp_projected_resolved vp series chart t :
  temp_resolved (temp_projected vp series chart t).
Proof.
  destruct t as [t|]; simpl; [|exact I]. unfold projection.
  destruct (priceToCoordinate vp series (price t)) as [[b|]|],
    (timeToCoordinate vp chart (time t)) as [[a|]|]; simpl; auto.
Qed.

Lemma cached_projection_pass series chart w :
  cached (projection_pass series chart w) =
  projected (viewport (host w)) series chart (committed w).
Proof.
  unfold cached, projection_pass; simpl.
  by rewrite lookup_app_r, Nat.sub_diag.
Qed.

Lemma committed_projection_pass series chart w :
  committed (projection_pass series chart w) = committed w.
Proof. reflexivity. Qed.

(** ** [_updateView] *)

Lemma _updateView_eq w :
  _updateView w =
  (match _requestUpdate (tool w) with
   | Some callback =>
       with_host (fun h => set_repaint_requests (repaint_requests h ++ [callback]) h) w
   | None => w
   end, Normal tt).
Proof.
  unfold _updateView, requestUpdate. unfold_M.
  by destruct (_requestUpdate (tool w)).
Qed.

(** The repaint requests made by one call of [_updateView]. *)
Lemma _updateView_requests w :
  repaint_requests (host (fst (_updateView w))) =
  repaint_requests (host w) ++
  match _requestUpdate (tool w) with Some callback => [callback] | None => [] end.
Proof.
  rewrite _updateView_eq. simpl.
  destruct (_requestUpdate (tool w)); simpl; [done|by rewrite app_nil_r].
Qed.

(** ** The invariant holds in every reachable world *)

Lemma subscriptions_consistent_ext w w' :
  tool w' = tool w ->
  closures (heap w') = closures (heap w) ->
  click_subscribers (host w') = click_subscribers (host w) ->
  move_subscribers (host w') = move_subscribers (host w) ->
  subscriptions_consistent w -> subscriptions_consistent w'.
Proof.
  unfold subscriptions_consistent. intros -> -> -> ->. done.
Qed.

Lemma inv_new options vp : inv (new_PolylineDrawingTool options vp).
Proof.
  constructor; simpl; try lia; done.
Qed.

Lemma inv_update w : inv w -> inv (fst (update w)).
Proof.
  intros Hinv.
  destruct (_series (tool w)) as [series|] eqn:Hs;
    [destruct (_chart (tool w)) as [chart|] eqn:Hc|].
  - rewrite (update_present w series chart Hs Hc). simpl.
    destruct Hinv. constructor; simpl; try assumption.
    + rewrite length_app; simpl; lia.
    + rewrite cached_projection_pass. apply projected_resolved.
    + apply temp_projected_resolved.
  - rewrite update_absent by auto. done.
  - rewrite update_absent by auto. done.
Qed.

Lemma inv_updateView w : inv w -> inv (fst (_updateView w)).
Proof.
  intros Hinv. rewrite _updateView_eq. simpl.
  destruct (_requestUpdate (tool w)); [|done].
  destruct Hinv. constructor; try assumption.
Qed.

Lemma update_returns w : snd (update w) = Normal tt.
Proof.
  destruct (_series (tool w)) as [series|] eqn:Hs;
    [destruct (_chart (tool w)) as [chart|] eqn:Hc|].
  - by rewrite (update_present w series chart Hs Hc).
  - by rewrite update_absent by auto.
  - by rewrite update_absent by auto.
Qed.

Lemma update_tool w : tool (fst (update w)) = tool w.
Proof.
  destruct (_series (tool w)) as [series|] eqn:Hs;
    [destruct (_chart (tool w)) as [chart|] eqn:Hc|].
  - by rewrite (update_present w series chart Hs Hc).
  - by rewrite update_absent by auto.
  - by rewrite update_absent by auto.
Qed.

Lemma update_host w : host (fst (update w)) = host w.
Proof.
  destruct (_series (tool w)) as [series|] eqn:Hs;
    [destruct (_chart (tool w)) as [chart|] eqn:Hc|].
  - by rewrite (update_present w series chart Hs Hc).
  - by rewrite update_absent by auto.
  - by rewrite update_absent by auto.
Qed.

Lemma update_committed w : committed (fst (update w)) = committed w.
Proof.
  destruct (_series (tool w)) as [series|] eqn:Hs;
    [destruct (_chart (tool w)) as [chart|] eqn:Hc|].
  - by rewrite (update_present w series chart Hs Hc).
  - by rewrite update_absent by auto.
  - by rewrite update_absent by auto.
Qed.

Lemma update_closures w : closures (heap (fst (update w))) = closures (heap w).
Proof.
  destruct (_series (tool w)) as [series|] eqn:Hs;
    [destruct (_chart (tool w)) as [chart|] eqn:Hc|].
  - by rewrite (update_present w series chart Hs Hc).
  - by rewrite update_absent by auto.
  - by rewrite update_absent by auto.
Qed.

Lemma _updateView_tool w : tool (fst (_updateView w)) = tool w.
Proof. rewrite _updateView_eq. simpl. by destruct (_requestUpdate (tool w)). Qed.

Lemma _updateView_view w : view (fst (_updateView w)) = view w.
Proof. rewrite _updateView_eq. simpl. by destruct (_requestUpdate (tool w)). Qed.

Lemma _updateView_heap w : heap (fst (_updateView w)) = heap w.
Proof. rewrite _updateView_eq. simpl. by destruct (_requestUpdate (tool w)). Qed.

Lemma _updateView_committed w : committed (fst (_updateView w)) = committed w.
Proof. unfold committed. by rewrite _updateView_heap, _updateView_tool. Qed.

Lemma _updateView_subscribers w :
  click_subscribers (host (fst (_updateView w))) = click_subscribers (host w) /\
  move_subscribers (host (fst (_updateView w))) = move_subscribers (host w) /\
  viewport (host (fst (_updateView w))) = viewport (host w).
Proof. rewrite _updateView_eq. simpl. by destruct (_requestUpdate (tool w)). Qed.

(** ** [_addPoint] and the handlers *)

Lemma _addPoint_eq point w :
  _addPoint point w = _updateView (fst (update (fst (push_point point w)))).
Proof.
  unfold _addPoint. unfold_M. unfold push_point at 1, modify. simpl.
  pose proof (update_returns (with_heap (fun h =>
    set_point_arrays (alter (fun a => a ++ [point]) (_points (tool w)) (point_arrays h)) h) w))
    as Hret.
  destruct (update _) as [w' r]. simpl in *. by subst r.
Qed.

Lemma push_point_committed point w :
  _points (tool w) < List.length (point_arrays (heap w)) ->
  committed (fst (push_point point w)) = committed w ++ [point].
Proof.
  intros Hvalid. unfold committed, push_point, modify; simpl.
  rewrite list_lookup_alter_eq.
  destruct (lookup_lt_is_Some_2 _ _ Hvalid) as [a ->]. done.
Qed.

Lemma inv_push_point point w : inv w -> inv (fst (push_point point w)).
Proof.
  intros []. constructor; simpl; try assumption.
  by rewrite length_alter.
Qed.

Lemma inv_addPoint point w : inv w -> inv (fst (_addPoint point w)).
Proof.
  intros Hinv. rewrite _addPoint_eq.
  by apply inv_updateView, inv_update, inv_push_point.
Qed.

Lemma _addPoint_committed point w :
  _points (tool w) < List.length (point_arrays (heap w)) ->
  committed (fst (_addPoint point w)) = committed w ++ [point].
Proof.
  intros Hvalid.
  by rewrite _addPoint_eq, _updateView_committed, update_committed, push_point_committed.
Qed.

Lemma _addPoint_returns point w : snd (_addPoint point w) = Normal tt.
Proof. by rewrite _addPoint_eq, _updateView_eq. Qed.

Lemma _addPoint_tool point w : tool (fst (_addPoint point w)) = tool w.
Proof. by rewrite _addPoint_eq, _updateView_tool, update_tool. Qed.

Lemma _addPoint_host point w :
  click_subscribers (host (fst (_addPoint point w))) = click_subscribers (host w) /\
  move_subscribers (host (fst (_addPoint point w))) = move_subscribers (host w) /\
  viewport (host (fst (_addPoint point w))) = viewport (host w).
Proof.
  rewrite _addPoint_eq.
  destruct (_updateView_subscribers (fst (update (fst (push_point point w)))))
    as (-> & -> & ->).
  by rewrite update_host.
Qed.

Lemma _addPoint_closures point w :
  closures (heap (fst (_addPoint point w))) = closures (heap w).
Proof. by rewrite _addPoint_eq, _updateView_heap, update_closures. Qed.

(** An accepted click commits its point. *)
Lemma clickHandler_accept w series param point :
  _active (tool w) = true -> _series (tool w) = Some series ->
  click_point (viewport (host w)) series param = Some point ->
  clickHandler param w = _addPoint point w.
Proof.
  intros Hactive Hseries Hclick. unfold clickHandler, click_point in *. unfold_M.
  rewrite Hactive, Hseries. simpl.
  destruct (ev_point param) as [pt|]; [|done].
  destruct (ev_time param) as [t|]; [|done].
  destruct (time_truthy t); [|done]. simpl.
  destruct (coordinateToPrice (viewport (host w)) series (pt_y pt)) as [[p|]|]; [|done..].
  by simplify_eq.
Qed.

(** A click either leaves the world alone or commits one point. *)
Lemma clickHandler_cases w param :
  fst (clickHandler param w) = w \/ exists point, clickHandler param w = _addPoint point w.
Proof.
  unfold clickHandler. unfold_M.
  destruct (_active (tool w)); simpl; [|by left].
  destruct (ev_point param) as [pt|]; [|by left].
  destruct (ev_time param) as [t|]; [|by left].
  destruct (time_truthy t); simpl; [|by left].
  destruct (_series (tool w)) as [series|]; [|by left].
  destruct (coordinateToPrice (viewport (host w)) series (pt_y pt)) as [[p|]|];
    [right; eauto|by left..].
Qed.

(** A pointer move either throws before any write or sets the temp point
    and asks for a repaint. *)
Lemma moveHandler_cases w param :
  fst (moveHandler param w) = w \/
  exists t, moveHandler param w = _updateView (with_tool (set_tempPoint t) w).
Proof.
  unfold moveHandler. unfold_M. unfold modify.
  destruct (_active (tool w)); [|right; by eexists].
  destruct (ev_point param) as [pt|]; [|right; by eexists].
  destruct (ev_time param) as [t|]; [|right; by eexists].
  destruct (_series (tool w)) as [series|]; [|right; by eexists].
  destruct (time_truthy t); simpl; [|right; by eexists].
  destruct (coordinateToPrice (viewport (host w)) series (pt_y pt)) as [[p|]|];
    [right; by eexists..|by left].
Qed.

Lemma inv_clickHandler w param : inv w -> inv (fst (clickHandler param w)).
Proof.
  intros Hinv. destruct (clickHandler_cases w param) as [->|[point ->]]; [done|].
  by apply inv_addPoint.
Qed.

Lemma inv_set_tempPoint w t : inv w -> inv (with_tool (set_tempPoint t) w).
Proof. intros []. constructor; assumption. Qed.

Lemma inv_moveHandler w param : inv w -> inv (fst (moveHandler param w)).
Proof.
  intros Hinv. destruct (moveHandler_cases w param) as [->|[t ->]]; [done|].
  by apply inv_updateView, inv_set_tempPoint.
Qed.

(** ** Activation *)

Lemma activate_active w chart series :
  _active (tool w) = true -> activate chart series w = (w, Normal tt).
Proof. intros Hactive. unfold activate. unfold_M. by rewrite Hactive. Qed.

Lemma activate_inactive w chart series :
  _active (tool w) = false ->
  activate chart series w =
  ({| tool := set_moveHandler (Some (S (List.length (closures (heap w)))))
                (set_clickHandler (Some (List.length (closures (heap w))))
                   (set_active true (set_series (Some series)
                      (set_chart (Some chart) (tool w)))));
      view := view w;
      heap := set_closures (closures (heap w) ++ [ClickClosure; MoveClosure]) (heap w);
      host := set_move_subscribers
                (move_subscribers (host w) ++ [(chart, S (List.length (closures (heap w))))])
                (set_click_subscribers
                   (click_subscribers (host w) ++ [(chart, List.length (closures (heap w)))])
                   (host w)) |}, Normal tt).
Proof.
  intros Hactive. unfold activate, new_closure, subscribeClick, subscribeCrosshairMove.
  unfold_M. rewrite Hactive. open_world w.
  unfold with_tool, with_heap, with_host, alloc; simpl.
  rewrite length_app, <- (assoc_L (++)); simpl.
  by rewrite Nat.add_1_r.
Qed.

Lemma activate_sets_active w chart series :
  _active (tool (fst (activate chart series w))) = true.
Proof.
  destruct (_active (tool w)) eqn:Hactive.
  - by rewrite activate_active.
  - by rewrite activate_inactive.
Qed.

Lemma inv_activate w chart series : inv w -> inv (fst (activate chart series w)).
Proof.
  intros Hinv. destruct (_active (tool w)) eqn:Hactive.
  - by rewrite activate_active.
  - rewrite activate_inactive by done. destruct Hinv as [? ? ? ? ? Hsub].
    unfold subscriptions_consistent in Hsub. rewrite Hactive in Hsub.
    destruct Hsub as (_ & _ & _ & _ & Hclick & Hmove).
    constructor; simpl; try assumption.
    unfold subscriptions_consistent; simpl.
    exists chart, series, (List.length (closures (heap w))),
      (S (List.length (closures (heap w)))).
    rewrite Hclick, Hmove. repeat split.
    + by rewrite lookup_app_r, Nat.sub_diag.
    + rewrite lookup_app_r by lia. by replace (S _ - _) with 1 by lia.
Qed.

Lemma deactivate_noop w :
  _active (tool w) = false \/ _chart (tool w) = None ->
  deactivate w = (w, Normal tt).
Proof.
  intros Hnoop. unfold deactivate. unfold_M.
  destruct (_active (tool w)), (_chart (tool w)); try reflexivity.
  destruct Hnoop; discriminate.
Qed.

(** The world [deactivate] hands to [_updateView] when the tool is active
    with both handlers registered. *)
Lemma deactivate_active w chart click move :
  _active (tool w) = true -> _chart (tool w) = Some chart ->
  _clickHandler (tool w) = Some click -> _moveHandler (tool w) = Some move ->
  deactivate w =
  _updateView
    {| tool := set_tempPoint None (set_series None (set_chart None (set_active false
                 (set_moveHandler None (set_clickHandler None (tool w))))));
       view := view w;
       heap := heap w;
       host := set_move_subscribers
                 (filter (fun s => s <> (chart, move)) (move_subscribers (host w)))
                 (set_click_subscribers
                    (filter (fun s => s <> (chart, click)) (click_subscribers (host w)))
                    (host w)) |}.
Proof.
  intros Hactive Hchart Hclick Hmove.
  unfold deactivate, unsubscribeClick, unsubscribeCrosshairMove. unfold_M.
  rewrite Hactive, Hchart, Hclick, Hmove. reflexivity.
Qed.

Lemma filter_singleton_ne (s : nat * nat) : filter (fun s' => s' <> s) [s] = [].
Proof. rewrite filter_cons, filter_nil. by destruct (decide (s <> s)). Qed.

Lemma inv_deactivate w : inv w -> inv (fst (deactivate w)).
Proof.
  intros Hinv. destruct (_active (tool w)) eqn:Hactive.
  2:{ by rewrite deactivate_noop by auto. }
  pose proof (inv_subscriptions w Hinv) as Hsub.
  unfold subscriptions_consistent in Hsub. rewrite Hactive in Hsub.
  destruct Hsub as (chart & series & click & move & Hc & Hs & Hch & Hmh & _ & _ & Hcs & Hms).
  rewrite (deactivate_active w chart click move) by done.
  apply inv_updateView. destruct Hinv. constructor; simpl; try assumption.
  unfold subscriptions_consistent; simpl.
  rewrite Hcs, Hms, !filter_singleton_ne. done.
Qed.

(** ** The remaining methods *)

Lemma inv_fresh_points w : inv w -> inv (fst (fresh_points w)).
Proof.
  intros []. constructor; simpl; try assumption.
  rewrite length_app; simpl; lia.
Qed.

Lemma fresh_points_committed w : committed (fst (fresh_points w)) = [].
Proof.
  unfold committed, fresh_points, modify; simpl.
  by rewrite lookup_app_r, Nat.sub_diag.
Qed.

Lemma clearPoints_eq w :
  clearPoints w = _updateView (with_tool (set_tempPoint None) (fst (fresh_points w))).
Proof. reflexivity. Qed.

Lemma inv_clearPoints w : inv w -> inv (fst (clearPoints w)).
Proof.
  intros Hinv. rewrite clearPoints_eq.
  by apply inv_updateView, inv_set_tempPoint, inv_fresh_points.
Qed.

Lemma applyOptions_eq options w :
  applyOptions options w = _updateView (fst (merge_options options w)).
Proof. reflexivity. Qed.

Lemma inv_merge_options options w : inv w -> inv (fst (merge_options options w)).
Proof.
  intros []. constructor; simpl; try assumption.
  rewrite length_app; simpl; lia.
Qed.

Lemma inv_applyOptions options w : inv w -> inv (fst (applyOptions options w)).
Proof.
  intros Hinv. rewrite applyOptions_eq. by apply inv_updateView, inv_merge_options.
Qed.

Lemma getPoints_eq w :
  getPoints w =
  (with_heap (set_point_arrays (point_arrays (heap w) ++ [committed w])) w,
   Normal (List.length (point_arrays (heap w)))).
Proof. reflexivity. Qed.

Lemma inv_getPoints w : inv w -> inv (fst (getPoints w)).
Proof.
  intros [Hp ? ? Hc ? ?]. rewrite getPoints_eq. constructor; simpl; try assumption.
  rewrite length_app; simpl; lia.
Qed.

Lemma inv_attached callback w : inv w -> inv (fst (attached callback w)).
Proof. intros []. constructor; assumption. Qed.

Lemma detached_eq w :
  detached w = (with_tool (set_requestUpdate None) (fst (deactivate w)), Normal tt).
Proof.
  unfold detached. unfold_M.
  destruct (_active (tool w)) eqn:Hactive.
  2:{ by rewrite deactivate_noop by auto. }
  destruct (_chart (tool w)) as [chart|] eqn:Hchart.
  2:{ by rewrite deactivate_noop by auto. }
  unfold deactivate. unfold_M. rewrite Hactive, Hchart.
  destruct (_clickHandler (tool w)), (_moveHandler (tool w)); simpl;
    rewrite _updateView_eq; reflexivity.
Qed.

Lemma inv_detached w : inv w -> inv (fst (detached w)).
Proof.
  intros Hinv. rewrite detached_eq. simpl.
  destruct (inv_deactivate w Hinv). constructor; assumption.
Qed.

Lemma inv_viewport_change vp w : inv w -> inv (fst (host_viewport_change vp w)).
Proof. intros []. constructor; assumption. Qed.

Lemma inv_write l contents w :
  l <> _points (tool w) -> inv w -> inv (fst (write_point_array l contents w)).
Proof.
  intros Hne []. constructor; simpl; try assumption.
  by rewrite length_insert.
Qed.

(** ** Notifications from the host *)

Lemma forEach_singleton {A : Type} (a : A) (body : A -> M unit) w :
  forEach [a] body w = body a w.
Proof. simpl. unfold_M. by destruct (body a w) as [w' [[]|]]. Qed.

Lemma host_click_eq w chart param :
  inv w ->
  host_click chart param w =
  if _active (tool w) && bool_decide (_chart (tool w) = Some chart)
  then clickHandler param w else (w, Normal tt).
Proof.
  intros Hinv. pose proof (inv_subscriptions w Hinv) as Hsub.
  unfold subscriptions_consistent in Hsub.
  unfold host_click, notify. unfold_M.
  destruct (_active (tool w)); simpl.
  - destruct Hsub as (c & series & click & move & -> & _ & _ & _ & Hclick & _ & -> & _).
    rewrite filter_cons, filter_nil. simpl.
    destruct (decide (c = chart)) as [->|Hne].
    + rewrite bool_decide_eq_true_2 by done. rewrite forEach_singleton. simpl.
      unfold call_closure. unfold_M. by rewrite Hclick.
    + rewrite bool_decide_eq_false_2 by congruence. done.
  - by destruct Hsub as (_ & _ & _ & _ & -> & _).
Qed.

Lemma host_crosshairMove_eq w chart param :
  inv w ->
  host_crosshairMove chart param w =
  if _active (tool w) && bool_decide (_chart (tool w) = Some chart)
  then moveHandler param w else (w, Normal tt).
Proof.
  intros Hinv. pose proof (inv_subscriptions w Hinv) as Hsub.
  unfold subscriptions_consistent in Hsub.
  unfold host_crosshairMove, notify. unfold_M.
  destruct (_active (tool w)); simpl.
  - destruct Hsub as (c & series & click & move & -> & _ & _ & _ & _ & Hmove & _ & ->).
    rewrite filter_cons, filter_nil. simpl.
    destruct (decide (c = chart)) as [->|Hne].
    + rewrite bool_decide_eq_true_2 by done. rewrite forEach_singleton. simpl.
      unfold call_closure. unfold_M. by rewrite Hmove.
    + rewrite bool_decide_eq_false_2 by congruence. done.
  - by destruct Hsub as (_ & _ & _ & _ & _ & ->).
Qed.

Lemma inv_host_click w chart param : inv w -> inv (fst (host_click chart param w)).
Proof.
  intros Hinv. rewrite host_click_eq by done.
  destruct (_ && _); [by apply inv_clickHandler|done].
Qed.

Lemma inv_host_crosshairMove w chart param :
  inv w -> inv (fst (host_crosshairMove chart param w)).
Proof.
  intros Hinv. rewrite host_crosshairMove_eq by done.
  destruct (_ && _); [by apply inv_moveHandler|done].
Qed.

(** Every reachable world satisfies the invariant. *)
Lemma reachable_inv w : reachable w -> inv w.
Proof.
  induction 1; unfold state_after.
  - apply inv_new.
  - by apply inv_attached.
  - by apply inv_detached.
  - by apply inv_activate.
  - by apply inv_deactivate.
  - by apply inv_clearPoints.
  - by apply inv_applyOptions.
  - by apply inv_getPoints.
  - by apply inv_addPoint.
  - by apply inv_update.
  - by apply inv_host_click.
  - by apply inv_host_crosshairMove.
  - by apply inv_viewport_change.
  - by apply inv_write.
Qed.

(** * The claims of the specification *)

(** ** Projection cache *)

(** Claim C1, as amended.  After a projection pass with both handles
    present, [update] returns normally, leaves the committed sequence as it
    was, and the cached sequence holds, in commit order, the projections of
    exactly those committed points whose time and price both map to a
    coordinate (up to the first point on which a host mapping throws).
    Unresolved points are left out of the cache itself: every cached entry
    is resolved, the cache is never longer than the committed sequence, and
    it has the same length when every committed point resolves. *)
Theorem update_caches_resolved_projections w series chart :
  _series (tool w) = Some series -> _chart (tool w) = Some chart ->
  result_of update w = Normal tt /\
  committed (state_after update w) = committed w /\
  cached (state_after update w) =
    projected (viewport (host w)) series chart (committed w) /\
  Forall (fun v => resolved v = true) (cached (state_after update w)) /\
  List.length (cached (state_after update w)) <=
    List.length (committed (state_after update w)) /\
  (all_projectable (viewport (host w)) series chart (committed w) ->
   List.length (cached (state_after update w)) =
     List.length (committed (state_after update w))).
Proof.
  intros Hs Hc. unfold result_of, state_after.
  rewrite (update_present w series chart Hs Hc). simpl.
  rewrite cached_projection_pass, committed_projection_pass.
  repeat split.
  - apply projected_resolved.
  - apply projected_length.
  - apply projected_all_projectable.
Qed.

(** Claim C4, as amended.  When the chart handle or the series handle is
    absent, [update] returns normally and changes nothing: the cached
    sequence and the cached temp view point keep whatever a previous pass
    left in them. *)
Theorem update_without_handles_keeps_cache w :
  _series (tool w) = None \/ _chart (tool w) = None ->
  result_of update w = Normal tt /\
  state_after update w = w /\
  cached (state_after update w) = cached w /\
  _tempViewPoint (view (state_after update w)) = _tempViewPoint (view w).
Proof.
  intros Habsent. unfold result_of, state_after.
  rewrite (update_absent w Habsent). done.
Qed.

Lemma pixels_resolved (pts : list (ViewPoint (num:=num))) :
  Forall (fun v => resolved v = true) pts ->
  List.length (pixels pts) = List.length pts.
Proof.
  induction 1 as [|v pts Hv _ IH]; simpl; [done|].
  unfold resolved in Hv. destruct (vp_x v), (vp_y v); try discriminate.
  simpl. by rewrite IH.
Qed.

(** What a renderer created in an invariant world observes. *)
Lemma renderer_observes w :
  inv w ->
  exists opts,
    renderer w =
      (w, Normal {| data_points := _viewPoints (view w);
                    data_options := _options (tool w);
                    data_tempPoint := _tempViewPoint (view w) |}) /\
    observe w {| data_points := _viewPoints (view w);
                 data_options := _options (tool w);
                 data_tempPoint := _tempViewPoint (view w) |} =
      Some {| points := cached w; options := opts;
              tempPoint := _tempViewPoint (view w) |}.
Proof.
  intros [_ Ho Hv _ _ _].
  destruct (lookup_lt_is_Some_2 _ _ Ho) as [opts Hopts].
  destruct (lookup_lt_is_Some_2 _ _ Hv) as [pts Hpts].
  exists opts. split; [reflexivity|].
  unfold observe, cached; simpl. rewrite Hpts; simpl. by rewrite Hopts.
Qed.

(** ** The renderer *)

Section DrawProperties.
Variables hpr vpr : num.

Lemma path_calls_app (l1 l2 : list (CanvasOp (num:=num))) :
  path_calls (l1 ++ l2) = path_calls l1 ++ path_calls l2.
Proof. apply List.filter_app. Qed.

Lemma arc_calls_app (l1 l2 : list (CanvasOp (num:=num))) :
  arc_calls (l1 ++ l2) = arc_calls l1 ++ arc_calls l2.
Proof. apply List.filter_app. Qed.

Lemma line_style_calls opts :
  path_calls (line_style hpr opts) = [] /\ arc_calls (line_style hpr opts) = [].
Proof.
  unfold line_style. destruct (lineStyle opts); [done|].
  by destruct (dashPattern opts).
Qed.

Lemma lineTo_each_calls (rest : list (ViewPoint (num:=num))) :
  path_calls (lineTo_each hpr vpr rest) = map (segment_to hpr vpr) (pixels rest) /\
  arc_calls (lineTo_each hpr vpr rest) = [].
Proof.
  induction rest as [|v rest [IHp IHa]]; [done|]. simpl.
  destruct (vp_x v), (vp_y v); simpl; try done.
  unfold path_calls, arc_calls in *; simpl. by rewrite IHp, IHa.
Qed.

Lemma marker_each_calls opts (pts : list (ViewPoint (num:=num))) :
  path_calls (marker_each hpr vpr opts pts) = [] /\
  arc_calls (marker_each hpr vpr opts pts) = map (marker_arc hpr vpr opts) (pixels pts).
Proof.
  induction pts as [|v pts [IHp IHa]]; [done|]. simpl.
  destruct (vp_x v), (vp_y v); simpl; try done.
  unfold path_calls, arc_calls in *; simpl. by rewrite IHp, IHa.
Qed.

Lemma lineTo_temp_calls (t : option (ViewPoint (num:=num))) :
  path_calls (lineTo_temp hpr vpr t) = lineTo_temp hpr vpr t /\
  arc_calls (lineTo_temp hpr vpr t) = [] /\
  List.length (lineTo_temp hpr vpr t) <= 1.
Proof.
  destruct t as [[[a|] [b|]]|]; simpl; repeat split; lia.
Qed.

(** The path and the markers of a paint with at least one committed
    point. *)
Lemma draw_committed_calls opts first rest t :
  path_calls (draw hpr vpr {| points := first :: rest; options := opts; tempPoint := t |}) =
    match vp_x first, vp_y first with
    | Some a, Some b =>
        start_at hpr vpr (a, b) :: map (segment_to hpr vpr) (pixels rest) ++
        lineTo_temp hpr vpr t
    | _, _ => []
    end /\
  arc_calls (draw hpr vpr {| points := first :: rest; options := opts; tempPoint := t |}) =
    match vp_x first, vp_y first with
    | Some a, Some b => map (marker_arc hpr vpr opts) (pixels (first :: rest))
    | _, _ => []
    end.
Proof.
  unfold draw.
  destruct (line_style_calls opts) as [Hsp Hsa].
  destruct (lineTo_each_calls rest) as [Hlp Hla].
  destruct (lineTo_temp_calls t) as (Htp & Hta & _).
  destruct (marker_each_calls opts (first :: rest)) as [Hmp Hma].
  assert (Hsave : forall ops : list (CanvasOp (num:=num)),
    path_calls (save :: ops) = path_calls ops /\ arc_calls (save :: ops) = arc_calls ops)
    by done.
  destruct (Hsave (line_style hpr opts ++ [beginPath] ++
     match vp_x first, vp_y first with
     | Some a, Some b =>
         [moveTo (pixelX hpr a) (pixelY vpr b)] ++ lineTo_each hpr vpr rest ++
         lineTo_temp hpr vpr t ++ [stroke; set_fillStyle (pointColor opts)] ++
         marker_each hpr vpr opts (first :: rest)
     | _, _ => []
     end ++ [restore])) as [-> ->].
  rewrite !path_calls_app, !arc_calls_app, Hsp, Hsa.
  destruct (vp_x first) as [a|] eqn:Hx, (vp_y first) as [b|] eqn:Hy; try done.
  rewrite !path_calls_app, !arc_calls_app, Hlp, Hla, Htp, Hta, Hmp, Hma.
  simpl. rewrite Hx, Hy. simpl. by rewrite !app_nil_r.
Qed.

Lemma lineTo_each_pixels (rest : list (ViewPoint (num:=num))) :
  lineTo_each hpr vpr rest = map (segment_to hpr vpr) (pixels rest).
Proof.
  induction rest as [|v rest IH]; [done|]. simpl.
  destruct (vp_x v), (vp_y v); try done. simpl. by rewrite IH.
Qed.

Lemma lineTo_temp_pixels (t : option (ViewPoint (num:=num))) :
  lineTo_temp hpr vpr t = map (segment_to hpr vpr) (pixels (option_list t)).
Proof. by destruct t as [[[a|] [b|]]|]. Qed.

Lemma marker_each_pixels opts (pts : list (ViewPoint (num:=num))) :
  marker_each hpr vpr opts pts =
  List.flat_map (fun p => [beginPath; marker_arc hpr vpr opts p; fill]) (pixels pts).
Proof.
  induction pts as [|v pts IH]; [done|]. simpl.
  destruct (vp_x v), (vp_y v); try done. simpl. by rewrite IH.
Qed.

(** The whole call list of a paint whose first committed point is
    resolved. *)
Lemma draw_first_resolved opts first rest t a b :
  vp_x first = Some a -> vp_y first = Some b ->
  draw hpr vpr {| points := first :: rest; options := opts; tempPoint := t |} =
  save :: line_style hpr opts ++
  [beginPath; start_at hpr vpr (a, b)] ++
  map (segment_to hpr vpr) (pixels rest ++ pixels (option_list t)) ++
  [stroke; set_fillStyle (pointColor opts)] ++
  List.flat_map (fun p => [beginPath; marker_arc hpr vpr opts p; fill])
    (pixels (first :: rest)) ++
  [restore].
Proof.
  intros Hx Hy. unfold draw. rewrite Hx, Hy.
  rewrite lineTo_each_pixels, lineTo_temp_pixels, marker_each_pixels, map_app.
  simpl. rewrite Hx, Hy. by rewrite <- !app_assoc.
Qed.

(** The whole call list of a paint whose first committed point is
    unresolved. *)
Lemma draw_first_unresolved opts first rest t :
  resolved first = false ->
  draw hpr vpr {| points := first :: rest; options := opts; tempPoint := t |} =
  save :: line_style hpr opts ++ [beginPath; restore].
Proof.
  unfold resolved, draw. by destruct (vp_x first), (vp_y first).
Qed.

(** Claim C2, as amended.  In a payload with at least one committed point
    whose first committed point is resolved, [draw] begins a path at the
    first point, connects to it by [lineTo] in order every other resolved
    committed point (and then the temp point, if resolved), strokes that
    path, and then paints one marker - a circle drawn and filled on its
    own - per resolved committed point, skipping the unresolved ones
    wherever they stand after the first.  When the first committed point
    is unresolved, [draw] only sets the line style and begins a path: it
    paints no segment and no marker at all. *)
Theorem draw_skips_unresolved_after_first data first rest :
  points data = first :: rest ->
  (forall a b, vp_x first = Some a -> vp_y first = Some b ->
     draw hpr vpr data =
       save :: line_style hpr (options data) ++
       [beginPath; start_at hpr vpr (a, b)] ++
       map (segment_to hpr vpr) (pixels rest ++ pixels (option_list (tempPoint data))) ++
       [stroke; set_fillStyle (pointColor (options data))] ++
       List.flat_map
         (fun p => [beginPath; marker_arc hpr vpr (options data) p; fill])
         (pixels (points data)) ++
       [restore] /\
     path_calls (draw hpr vpr data) =
       start_at hpr vpr (a, b) :: map (segment_to hpr vpr) (pixels rest) ++
       lineTo_temp hpr vpr (tempPoint data) /\
     arc_calls (draw hpr vpr data) =
       map (marker_arc hpr vpr (options data)) (pixels (points data))) /\
  (resolved first = false ->
     draw hpr vpr data = save :: line_style hpr (options data) ++ [beginPath; restore] /\
     path_calls (draw hpr vpr data) = [] /\ arc_calls (draw hpr vpr data) = []).
Proof.
  destruct data as [pts opts t]; cbn [points options tempPoint]. intros ->.
  destruct (draw_committed_calls opts first rest t) as [Hp Ha].
  split.
  - intros a b Hx Hy. split; [by apply draw_first_resolved|].
    rewrite Hp, Ha, Hx, Hy. done.
  - intros Hres. split; [by apply draw_first_unresolved|].
    rewrite Hp, Ha. unfold resolved in Hres.
    by destruct (vp_x first), (vp_y first).
Qed.

(** Claim C8, as amended.  With zero committed points and a temp point
    whose coordinates are both non-null, [draw] paints exactly one circular
    marker, at the temp point, and no segment; with zero committed points
    and no temp point it makes no drawing call.  In every payload with at
    least one committed point the markers are those of committed points
    alone: the temp point adds no marker, and at most one [lineTo] at the
    end of the path. *)
Theorem draw_preview_and_temp data :
  (points data = [] ->
   forall a b, tempPoint data = Some {| vp_x := Some a; vp_y := Some b |} ->
     draw hpr vpr data =
       [save; set_fillStyle (pointColor (options data)); beginPath;
        marker_arc hpr vpr (options data) (a, b); fill; restore] /\
     path_calls (draw hpr vpr data) = []) /\
  (points data = [] -> tempPoint data = None -> draw hpr vpr data = [save; restore]) /\
  (points data <> [] ->
     let committed_only :=
       {| points := points data; options := options data; tempPoint := None |} in
     arc_calls (draw hpr vpr data) = arc_calls (draw hpr vpr committed_only) /\
     (arc_calls (draw hpr vpr data) =
        map (marker_arc hpr vpr (options data)) (pixels (points data)) \/
      arc_calls (draw hpr vpr data) = []) /\
     exists extension,
       path_calls (draw hpr vpr data) =
         path_calls (draw hpr vpr committed_only) ++ extension /\
       List.length extension <= 1 /\
       (extension = [] \/ extension = lineTo_temp hpr vpr (tempPoint data))).
Proof.
  destruct data as [pts opts t]; cbn [points options tempPoint].
  split; [|split].
  - by intros -> a b ->.
  - by intros -> ->.
  - intros Hne. destruct pts as [|first rest]; [done|]. clear Hne.
    destruct (draw_committed_calls opts first rest t) as [-> ->].
    destruct (draw_committed_calls opts first rest None) as [-> ->].
    destruct (lineTo_temp_calls t) as (_ & _ & Hlen).
    split; [done|]. split.
    { destruct (vp_x first), (vp_y first); auto. }
    destruct (vp_x first), (vp_y first).
    + exists (lineTo_temp hpr vpr t). simpl. rewrite app_nil_r. auto.
    + exists []. simpl. split; [done|]. split; [lia|auto].
    + exists []. simpl. split; [done|]. split; [lia|auto].
    + exists []. simpl. split; [done|]. split; [lia|auto].
Qed.

End DrawProperties.

(** ** The renderer payload across later calls *)

Lemma observe_mono w w' (r : PolylineRenderer (num:=num)) data :
  view_arrays (heap w) `prefix_of` view_arrays (heap w') ->
  option_objects (heap w) `prefix_of` option_objects (heap w') ->
  observe w r = Some data -> observe w' r = Some data.
Proof.
  intros Hv Ho. unfold observe.
  destruct (view_arrays (heap w) !! data_points r) as [pts|] eqn:Hpts; [|done].
  destruct (option_objects (heap w) !! data_options r) as [opts|] eqn:Hopts; [|done].
  simpl. intros Hdata.
  rewrite (prefix_lookup_Some _ _ _ _ Hpts Hv). simpl.
  by rewrite (prefix_lookup_Some _ _ _ _ Hopts Ho).
Qed.

Lemma update_heap_grows w :
  view_arrays (heap w) `prefix_of` view_arrays (heap (fst (update w))) /\
  option_objects (heap (fst (update w))) = option_objects (heap w).
Proof.
  destruct (_series (tool w)) as [series|] eqn:Hs;
    [destruct (_chart (tool w)) as [chart|] eqn:Hc|].
  - rewrite (update_present w series chart Hs Hc). simpl.
    split; [by apply prefix_app_r|done].
  - by rewrite update_absent by auto.
  - by rewrite update_absent by auto.
Qed.

Lemma later_call_returns c w : snd (later_call c w) = Normal tt.
Proof.
  destruct c; simpl.
  - apply update_returns.
  - by rewrite applyOptions_eq, _updateView_eq.
  - done.
Qed.

Lemma later_call_keeps_payload c w (r : PolylineRenderer (num:=num)) data :
  observe w r = Some data -> observe (fst (later_call c w)) r = Some data.
Proof.
  destruct c; simpl.
  - destruct (update_heap_grows w) as [Hv Ho].
    apply observe_mono; [done|by rewrite Ho].
  - rewrite applyOptions_eq. apply observe_mono; rewrite _updateView_heap; simpl.
    + done.
    + by apply prefix_app_r.
  - done.
Qed.

Lemma later_calls_keep_payload calls (r : PolylineRenderer (num:=num)) data :
  forall w,
    observe w r = Some data ->
    observe (fst (forEach calls later_call w)) r = Some data /\
    snd (forEach calls later_call w) = Normal tt.
Proof.
  induction calls as [|c calls IH]; intros w Hobs; [done|].
  rewrite forEach_cons.
  pose proof (later_call_returns c w) as Hret.
  pose proof (later_call_keeps_payload c w r data Hobs) as Hkeep.
  destruct (later_call c w) as [w1 res]. simpl in *. subst res.
  by apply IH.
Qed.

(** Claim C3.  The payload a renderer reads - the cached view points, the
    temp view point and the style options as they were when [renderer()]
    returned it - is read unchanged after any sequence of later [update()]
    and [applyOptions()] calls, whatever the viewport does in between:
    both calls store their results in new objects and never write to the
    array or the options object the renderer refers to. *)
Theorem renderer_payload_is_stable w r calls :
  reachable w ->
  renderer w = (w, Normal r) ->
  exists data,
    observe w r = Some data /\
    points data = cached w /\
    tempPoint data = _tempViewPoint (view w) /\
    option_objects (heap w) !! _options (tool w) = Some (options data) /\
    observe (state_after (forEach calls later_call) w) r = Some data.
Proof.
  intros Hreach Hr. apply reachable_inv in Hreach.
  destruct (renderer_observes w Hreach) as (opts & Hr' & Hobs).
  rewrite Hr' in Hr. simplify_eq.
  eexists. split; [exact Hobs|]. simpl. repeat split.
  - unfold observe in Hobs. simpl in Hobs.
    destruct (view_arrays (heap w) !! _viewPoints (view w)); [|done]. simpl in Hobs.
    destruct (option_objects (heap w) !! _options (tool w)); [|done]. simpl in Hobs.
    by simplify_eq.
  - by apply later_calls_keep_payload.
Qed.

(** Claim C10.  After every call of [update] in a reachable world the
    cached sequence holds only entries whose [x] and [y] are both non-null.
    The payload of a renderer created then is observable, its committed
    points are that cache, and, when it has a committed point, [draw] skips
    none of them: one marker per entry, and a path through every entry
    (plus the temp point, if any). *)
Theorem update_cache_is_drawable w hpr vpr :
  reachable w ->
  Forall (fun v => resolved v = true) (cached (state_after update w)) /\
  exists r data,
    renderer (state_after update w) = (state_after update w, Normal r) /\
    observe (state_after update w) r = Some data /\
    points data = cached (state_after update w) /\
    List.length (pixels (points data)) = List.length (points data) /\
    (points data <> [] ->
     arc_calls (draw hpr vpr data) =
       map (marker_arc hpr vpr (options data)) (pixels (points data)) /\
     List.length (arc_calls (draw hpr vpr data)) = List.length (points data) /\
     List.length (path_calls (draw hpr vpr data)) =
       List.length (points data) + List.length (lineTo_temp hpr vpr (tempPoint data))).
Proof.
  intros Hreach. apply reachable_inv, inv_update in Hreach.
  unfold state_after. set (w' := fst (update w)) in *.
  pose proof (inv_cached w' Hreach) as Hcached.
  split; [done|].
  destruct (renderer_observes w' Hreach) as (opts & Hr & Hobs).
  eexists _, _. split; [exact Hr|]. split; [exact Hobs|].
  cbn [points options tempPoint].
  split; [done|]. split; [by apply pixels_resolved|].
  intros Hne. destruct (cached w') as [|first rest] eqn:Hpts; [done|].
  destruct (draw_committed_calls hpr vpr opts first rest (_tempViewPoint (view w')))
    as [Hp Ha].
  rewrite Hp, Ha. clear Hp Ha.
  pose proof (pixels_resolved _ Hcached) as Hlen.
  inversion Hcached as [|? ? Hfirst Hrest]; subst.
  pose proof (pixels_resolved _ Hrest) as Hlen'.
  unfold resolved in Hfirst.
  destruct (vp_x first) as [a|] eqn:Hx, (vp_y first) as [b|] eqn:Hy; try discriminate.
  split; [done|]. split.
  - by rewrite length_map.
  - simpl. rewrite length_app, length_map, Hlen'. done.
Qed.

(** ** Committing points *)

Lemma host_click_accept w chart series param point :
  inv w -> _active (tool w) = true ->
  _chart (tool w) = Some chart -> _series (tool w) = Some series ->
  click_point (viewport (host w)) series param = Some point ->
  host_click chart param w = _addPoint point w.
Proof.
  intros Hinv Hactive Hchart Hseries Hclick.
  rewrite host_click_eq, Hactive, Hchart by done.
  rewrite bool_decide_eq_true_2 by done. simpl.
  by apply clickHandler_accept with series.
Qed.

Lemma host_clicks_commit chart series vp params pts :
  Forall2 (fun param point => click_point vp series param = Some point) params pts ->
  forall w,
    inv w -> _active (tool w) = true ->
    _chart (tool w) = Some chart -> _series (tool w) = Some series ->
    viewport (host w) = vp ->
    snd (host_clicks chart params w) = Normal tt /\
    committed (fst (host_clicks chart params w)) = committed w ++ pts /\
    inv (fst (host_clicks chart params w)).
Proof.
  unfold host_clicks.
  induction 1 as [|param point params pts Hclick _ IH];
    intros w Hinv Hactive Hchart Hseries Hvp.
  - simpl. by rewrite app_nil_r.
  - rewrite forEach_cons.
    rewrite (host_click_accept w chart series param point) by (by rewrite ?Hvp).
    pose proof (_addPoint_returns point w) as Hret.
    pose proof (_addPoint_tool point w) as Htool.
    pose proof (_addPoint_host point w) as (_ & _ & Hvp').
    pose proof (_addPoint_committed point w (inv_points w Hinv)) as Hcommitted.
    pose proof (inv_addPoint point w Hinv) as Hinv'.
    destruct (_addPoint point w) as [w1 res]. simpl in *. subst res.
    destruct (IH w1) as (Hres & Hpts & Hinv''); try done; try congruence.
    rewrite Hres, Hpts, Hcommitted, <- (assoc_L (++)). done.
Qed.

(** The array returned by [getPoints] is not the tool's own. *)
Lemma getPoints_copy w :
  _points (tool w) < List.length (point_arrays (heap w)) ->
  exists l,
    snd (getPoints w) = Normal l /\
    l <> _points (tool (fst (getPoints w))) /\
    point_arrays (heap (fst (getPoints w))) !! l = Some (committed w) /\
    committed (fst (getPoints w)) = committed w /\
    forall contents,
      committed (fst (write_point_array l contents (fst (getPoints w)))) = committed w.
Proof.
  intros Hvalid. rewrite getPoints_eq. simpl.
  exists (List.length (point_arrays (heap w))). split; [done|]. split; [lia|].
  split; [by rewrite lookup_app_r, Nat.sub_diag|].
  assert (Hsame : committed (with_heap
            (set_point_arrays (point_arrays (heap w) ++ [committed w])) w) = committed w).
  { unfold committed at 1; simpl. by rewrite lookup_app_l. }
  split; [done|]. intros contents.
  unfold committed at 1; simpl.
  rewrite list_lookup_insert_ne by lia. by rewrite lookup_app_l.
Qed.

(** X22.  In a reachable world where the tool is active on [chart], a
    sequence of click notifications on that chart, each of which the
    handler accepts (a pixel point, a truthy time, a price conversion that
    returns a price), is committed whole: the committed sequence
    afterwards is the earlier one followed by the clicked (time, price)
    points in click order, one per click. *)
Theorem accepted_clicks_are_committed_in_order w chart series params pts :
  reachable w ->
  _active (tool w) = true ->
  _chart (tool w) = Some chart -> _series (tool w) = Some series ->
  Forall2 (fun param point => click_point (viewport (host w)) series param = Some point)
    params pts ->
  let w' := state_after (host_clicks chart params) w in
  result_of (host_clicks chart params) w = Normal tt /\
  committed w' = committed w ++ pts /\
  (committed w = [] -> committed w' = pts) /\
  List.length (committed w') = List.length (committed w) + List.length params.
Proof.
  intros Hreach Hactive Hchart Hseries Hclicks. apply reachable_inv in Hreach.
  unfold state_after, result_of. simpl.
  destruct (host_clicks_commit chart series _ params pts Hclicks w)
    as (Hres & Hpts & Hinv); try done.
  split; [done|]. split; [done|]. split; [by intros Hnil; rewrite Hpts, Hnil|].
  rewrite Hpts, length_app. by rewrite (Forall2_length _ _ _ Hclicks).
Qed.

(** X23.  [getPoints()] returns a newly allocated array that holds the
    committed points in order: it is not the tool's own array, a second
    call returns yet another array, the call changes neither the tool nor
    the view nor the host, and replacing the contents of the returned
    array leaves the committed sequence as it was. *)
Theorem getPoints_returns_new_array w :
  reachable w ->
  exists l l',
    result_of getPoints w = Normal l /\
    result_of getPoints (state_after getPoints w) = Normal l' /\
    l <> l' /\
    l <> _points (tool (state_after getPoints w)) /\
    point_arrays (heap (state_after getPoints w)) !! l = Some (committed w) /\
    committed (state_after getPoints w) = committed w /\
    tool (state_after getPoints w) = tool w /\
    view (state_after getPoints w) = view w /\
    host (state_after getPoints w) = host w /\
    forall contents,
      committed (state_after (write_point_array l contents) (state_after getPoints w)) =
      committed w.
Proof.
  intros Hreach. pose proof (inv_points w (reachable_inv w Hreach)) as Hvalid.
  unfold state_after, result_of.
  destruct (getPoints_copy w Hvalid) as (l & Hl & Hne & Hcopy & Hsame & Hwrite).
  exists l, (S l). rewrite Hl. repeat (split; [done|]).
  rewrite getPoints_eq in *. simpl in *. simplify_eq. split.
  - rewrite length_app. simpl. f_equal. lia.
  - split; [lia|done].
Qed.

(** ** Deactivation, activation, clearing *)

(** Claim C6, as amended.  In every reachable world where the tool is
    active, [deactivate()] returns normally, sets the temp point to null,
    leaves the committed sequence unchanged, unregisters the click and the
    move subscriber (the chart holds no subscription afterwards, so click
    and pointer-move notifications on any chart leave the world as it is),
    clears the handlers and the chart and series handles, and calls the
    repaint-request callback once if the tool holds one (it is attached);
    without a callback no repaint is requested. *)
Theorem deactivate_from_active w :
  reachable w ->
  _active (tool w) = true ->
  let w' := state_after deactivate w in
  result_of deactivate w = Normal tt /\
  _tempPoint (tool w') = None /\
  _points (tool w') = _points (tool w) /\ committed w' = committed w /\
  click_subscribers (host w') = [] /\ move_subscribers (host w') = [] /\
  _clickHandler (tool w') = None /\ _moveHandler (tool w') = None /\
  _chart (tool w') = None /\ _series (tool w') = None /\
  _active (tool w') = false /\
  repaint_requests (host w') =
    repaint_requests (host w) ++
    match _requestUpdate (tool w) with Some callback => [callback] | None => [] end /\
  forall chart param,
    host_click chart param w' = (w', Normal tt) /\
    host_crosshairMove chart param w' = (w', Normal tt).
Proof.
  intros Hreach Hactive. apply reachable_inv in Hreach.
  pose proof (inv_deactivate w Hreach) as Hinv'.
  pose proof (inv_subscriptions w Hreach) as Hsub.
  unfold subscriptions_consistent in Hsub. rewrite Hactive in Hsub.
  destruct Hsub as (chart & series & click & move & Hc & Hs & Hch & Hmh & _ & _ & Hcs & Hms).
  pose proof (deactivate_active w chart click move Hactive Hc Hch Hmh) as Heq.
  match type of Heq with _ = _updateView ?x => set (w0 := x) in Heq end.
  pose proof (_updateView_tool w0) as Htool.
  pose proof (_updateView_committed w0) as Hcommitted.
  pose proof (_updateView_subscribers w0) as (Hcs' & Hms' & _).
  pose proof (_updateView_requests w0) as Hrequests.
  assert (Hres : snd (_updateView w0) = Normal tt) by (by rewrite _updateView_eq).
  rewrite <- Heq in Htool, Hcommitted, Hcs', Hms', Hrequests, Hres.
  clear Heq. cbv zeta. unfold state_after, result_of.
  set (w' := fst (deactivate w)) in *.
  assert (Hactive' : _active (tool w') = false) by (by rewrite Htool).
  rewrite Htool, Hcommitted, Hcs', Hms', Hrequests. subst w0. simpl.
  rewrite Hcs, Hms, !filter_singleton_ne.
  repeat (split; [done|]).
  intros chart' param.
  rewrite host_click_eq, host_crosshairMove_eq by done.
  by rewrite Hactive'.
Qed.

(** Claim C7.  [activate(chart, series)] on an active tool and
    [deactivate()] on an inactive tool return at once and leave the whole
    world - handles, handlers, subscriptions, points, cache - as it was;
    hence a second [activate] after an [activate], and a second
    [deactivate] after a [deactivate], change nothing. *)
Theorem activate_deactivate_idempotent w chart series chart' series' :
  (_active (tool w) = true -> activate chart series w = (w, Normal tt)) /\
  (_active (tool w) = false -> deactivate w = (w, Normal tt)) /\
  activate chart' series' (state_after (activate chart series) w) =
    (state_after (activate chart series) w, Normal tt) /\
  deactivate (state_after deactivate w) = (state_after deactivate w, Normal tt).
Proof.
  unfold state_after. split; [|split; [|split]].
  - apply activate_active.
  - intros Hinactive. apply deactivate_noop. auto.
  - apply activate_active, activate_sets_active.
  - destruct (_active (tool w)) eqn:Hactive.
    2:{ rewrite (deactivate_noop w) by auto. simpl. apply deactivate_noop; auto. }
    destruct (_chart (tool w)) as [c|] eqn:Hchart.
    2:{ rewrite (deactivate_noop w) by auto. simpl. apply deactivate_noop; auto. }
    apply deactivate_noop. left.
    unfold deactivate, unsubscribeClick, unsubscribeCrosshairMove. unfold_M.
    rewrite Hactive, Hchart.
    destruct (_clickHandler (tool w)), (_moveHandler (tool w)); simpl;
      rewrite _updateView_eq; simpl; by destruct (_requestUpdate (tool w)).
Qed.

(** Claim C9, as amended.  In every world, active or not, [clearPoints()]
    returns normally, makes the committed sequence empty and the temp
    point null, keeps the activation state, and calls the repaint-request
    callback once if the tool holds one (it is attached); without a
    callback no repaint is requested.  [getPoints()] afterwards returns an
    empty array. *)
Theorem clearPoints_resets w :
  let w' := state_after clearPoints w in
  result_of clearPoints w = Normal tt /\
  committed w' = [] /\
  _tempPoint (tool w') = None /\
  _active (tool w') = _active (tool w) /\
  repaint_requests (host w') =
    repaint_requests (host w) ++
    match _requestUpdate (tool w) with Some callback => [callback] | None => [] end /\
  exists l,
    result_of getPoints w' = Normal l /\
    point_arrays (heap (state_after getPoints w')) !! l = Some [].
Proof.
  cbv zeta. unfold state_after, result_of. rewrite clearPoints_eq.
  set (w0 := with_tool (set_tempPoint None) (fst (fresh_points w))).
  assert (Hempty : committed w0 = []) by apply fresh_points_committed.
  rewrite _updateView_requests, _updateView_committed, _updateView_tool.
  split; [by rewrite _updateView_eq|].
  split; [done|]. split; [done|]. split; [done|]. split; [done|].
  rewrite getPoints_eq. cbn [fst snd]. eexists. split; [reflexivity|].
  cbn [heap with_heap set_point_arrays point_arrays].
  rewrite lookup_app_r, Nat.sub_diag by done. simpl.
  by rewrite _updateView_committed, Hempty.
Qed.

(** * Further properties of the code *)

(** ** What [deactivate] and the handlers leave alone *)

Lemma deactivate_frame w :
  snd (deactivate w) = Normal tt /\
  view (fst (deactivate w)) = view w /\
  heap (fst (deactivate w)) = heap w /\
  _points (tool (fst (deactivate w))) = _points (tool w) /\
  _options (tool (fst (deactivate w))) = _options (tool w) /\
  _requestUpdate (tool (fst (deactivate w))) = _requestUpdate (tool w) /\
  viewport (host (fst (deactivate w))) = viewport (host w).
Proof.
  unfold deactivate, unsubscribeClick, unsubscribeCrosshairMove, _updateView, requestUpdate.
  unfold_M.
  destruct (_active (tool w)), (_chart (tool w)), (_clickHandler (tool w)),
    (_moveHandler (tool w)); simpl; try done;
    destruct (_requestUpdate (tool w)) eqn:Hcb; simpl; rewrite ?Hcb; done.
Qed.

Lemma deactivate_cases w :
  fst (deactivate w) = w \/
  (_active (tool w) = true /\
   _active (tool (fst (deactivate w))) = false /\
   _tempPoint (tool (fst (deactivate w))) = None).
Proof.
  unfold deactivate, unsubscribeClick, unsubscribeCrosshairMove, _updateView, requestUpdate.
  unfold_M.
  destruct (_active (tool w)), (_chart (tool w)), (_clickHandler (tool w)),
    (_moveHandler (tool w)); simpl; auto;
    destruct (_requestUpdate (tool w)); simpl; auto.
Qed.

Lemma deactivate_committed w : committed (fst (deactivate w)) = committed w.
Proof.
  destruct (deactivate_frame w) as (_ & _ & Hheap & Hpoints & _).
  unfold committed. by rewrite Hheap, Hpoints.
Qed.

Lemma clickHandler_returns_tool w param :
  tool (fst (clickHandler param w)) = tool w.
Proof.
  destruct (clickHandler_cases w param) as [->|[point ->]]; [done|].
  apply _addPoint_tool.
Qed.

(** An inactive tool holds no temp point. *)
Lemma reachable_idle_no_temp w :
  reachable w -> _active (tool w) = false -> _tempPoint (tool w) = None.
Proof.
  induction 1 as [| | w Hw IH | w c s Hw IH | w Hw IH | | | | | | w c param Hw IH
                  | w c param Hw IH | |]; unfold state_after.
  - done.
  - done.
  - rewrite detached_eq. simpl.
    destruct (deactivate_cases w) as [->|(_ & _ & Htemp)]; [done|by intros _].
  - by rewrite activate_sets_active.
  - destruct (deactivate_cases w) as [->|(_ & _ & Htemp)]; [done|by intros _].
  - rewrite clearPoints_eq, _updateView_tool. done.
  - rewrite applyOptions_eq, _updateView_tool. done.
  - done.
  - by rewrite _addPoint_tool.
  - unfold paneViews. by rewrite update_tool.
  - rewrite host_click_eq by (by apply reachable_inv).
    destruct (_ && _); [by rewrite clickHandler_returns_tool|done].
  - rewrite host_crosshairMove_eq by (by apply reachable_inv).
    destruct (_active (tool w)) eqn:Hactive; simpl; [|by auto].
    destruct (bool_decide _); simpl; [|by rewrite ?Hactive].
    destruct (moveHandler_cases w param) as [->|[t ->]]; [by rewrite ?Hactive|].
    rewrite _updateView_tool. simpl. by rewrite ?Hactive.
  - done.
  - done.
Qed.

(** ** The projection pass, again *)

(** X1.  Running [update] a second time with nothing changed in between
    yields the same cached view points and the same cached temp view
    point (in a new array), and the committed points stay as they were. *)
Theorem update_twice_same_cache w :
  cached (state_after update (state_after update w)) = cached (state_after update w) /\
  _tempViewPoint (view (state_after update (state_after update w))) =
    _tempViewPoint (view (state_after update w)) /\
  committed (state_after update (state_after update w)) = committed w.
Proof.
  unfold state_after.
  destruct (_series (tool w)) as [series|] eqn:Hs;
    [destruct (_chart (tool w)) as [chart|] eqn:Hc|].
  - rewrite (update_present w series chart Hs Hc). simpl.
    rewrite (update_present (projection_pass series chart w) series chart) by done.
    simpl. by rewrite !cached_projection_pass.
  - rewrite (update_absent w) by auto. simpl. by rewrite (update_absent w) by auto.
  - rewrite (update_absent w) by auto. simpl. by rewrite (update_absent w) by auto.
Qed.

Lemma projected_until_throw vp series chart before point after :
  projection vp series chart point = Throw ->
  projected vp series chart (before ++ point :: after) = projected vp series chart before.
Proof.
  intros Hthrow. induction before as [|q before IH]; simpl.
  - by rewrite Hthrow.
  - destruct (projection vp series chart q) as [[v|]|]; by rewrite ?IH.
Qed.

(** X2.  [update], [paneViews] and [_addPoint] always return normally:
    an exception thrown by a host mapping is absorbed by the [catch]
    blocks.  When the mapping throws on a committed point, the cache holds
    what was projected from the points before it; when it throws on the
    temp point, the cached temp view point is null. *)
Theorem update_absorbs_host_exceptions w series chart :
  _series (tool w) = Some series -> _chart (tool w) = Some chart ->
  result_of update w = Normal tt /\
  result_of paneViews w = Normal tt /\
  (forall point, result_of (_addPoint point) w = Normal tt) /\
  (forall before point after,
     committed w = before ++ point :: after ->
     projection (viewport (host w)) series chart point = Throw ->
     cached (state_after update w) =
       projected (viewport (host w)) series chart before) /\
  (forall t,
     _tempPoint (tool w) = Some t ->
     projection (viewport (host w)) series chart t = Throw ->
     _tempViewPoint (view (state_after update w)) = None).
Proof.
  intros Hs Hc. unfold result_of, state_after, paneViews.
  split; [apply update_returns|]. split; [apply update_returns|].
  split; [intros point; apply _addPoint_returns|].
  rewrite (update_present w series chart Hs Hc). simpl. split.
  - intros before point after Hpts Hthrow.
    rewrite cached_projection_pass, Hpts. by apply projected_until_throw.
  - intros t Ht Hthrow. by rewrite Ht; simpl; rewrite Hthrow.
Qed.

(** ** Activation state *)

(** X3.  In every reachable world the activation flag, the stored handles
    and the chart's subscriptions agree: an active tool stores both
    handles and has exactly one click and one move callback registered,
    both on the stored chart; an inactive tool stores no handle, no
    handler and no temp point, and has no callback registered. *)
Theorem reachable_activation_consistent w :
  reachable w ->
  (_active (tool w) = true ->
   exists chart series click move,
     _chart (tool w) = Some chart /\ _series (tool w) = Some series /\
     _clickHandler (tool w) = Some click /\ _moveHandler (tool w) = Some move /\
     click <> move /\
     click_subscribers (host w) = [(chart, click)] /\
     move_subscribers (host w) = [(chart, move)]) /\
  (_active (tool w) = false ->
   _chart (tool w) = None /\ _series (tool w) = None /\
   _clickHandler (tool w) = None /\ _moveHandler (tool w) = None /\
   _tempPoint (tool w) = None /\
   click_subscribers (host w) = [] /\ move_subscribers (host w) = []).
Proof.
  intros Hreach. pose proof (inv_subscriptions w (reachable_inv w Hreach)) as Hsub.
  unfold subscriptions_consistent in Hsub. split; intros Hactive; rewrite Hactive in Hsub.
  - destruct Hsub as (chart & series & click & move & ? & ? & ? & ? & Hc & Hm & ? & ?).
    exists chart, series, click, move. repeat split; try done.
    intros ->. congruence.
  - destruct Hsub as (? & ? & ? & ? & ? & ?).
    repeat split; try done. by apply reachable_idle_no_temp.
Qed.

(** X4.  [activate(chart, series)] on an inactive tool of a reachable
    world stores both handles, creates two distinct handlers and registers
    each exactly once on the given chart.  It touches neither the
    committed points nor the temp point nor the cache, and requests no
    repaint. *)
Theorem activate_from_inactive w chart series :
  reachable w ->
  _active (tool w) = false ->
  let w' := state_after (activate chart series) w in
  result_of (activate chart series) w = Normal tt /\
  _active (tool w') = true /\
  _chart (tool w') = Some chart /\ _series (tool w') = Some series /\
  (exists click move,
     click <> move /\
     _clickHandler (tool w') = Some click /\ _moveHandler (tool w') = Some move /\
     click_subscribers (host w') = [(chart, click)] /\
     move_subscribers (host w') = [(chart, move)]) /\
  committed w' = committed w /\
  _tempPoint (tool w') = _tempPoint (tool w) /\
  view w' = view w /\ cached w' = cached w /\
  repaint_requests (host w') = repaint_requests (host w).
Proof.
  intros Hreach Hactive. cbv zeta. unfold state_after, result_of.
  pose proof (inv_subscriptions w (reachable_inv w Hreach)) as Hsub.
  unfold subscriptions_consistent in Hsub. rewrite Hactive in Hsub.
  destruct Hsub as (_ & _ & _ & _ & Hcs & Hms).
  rewrite (activate_inactive w chart series Hactive). simpl.
  rewrite Hcs, Hms. repeat (split; [done|]).
  split; [|done].
  exists (List.length (closures (heap w))), (S (List.length (closures (heap w)))).
  repeat split. lia.
Qed.

(** ** Clicks and pointer moves *)

(** X5.  A click notification that the handler does not accept - no pixel
    point, no time or a falsy time, or a price conversion that answers
    null or throws - leaves the whole world as it was; so does any click
    notification on a chart other than the stored one, and any click
    while the tool is inactive. *)
Theorem ignored_click_changes_nothing w chart param :
  reachable w ->
  (forall series, _series (tool w) = Some series ->
     click_point (viewport (host w)) series param = None) \/
  _chart (tool w) <> Some chart \/
  _active (tool w) = false ->
  state_after (host_click chart param) w = w.
Proof.
  intros Hreach Hignored. unfold state_after.
  rewrite host_click_eq by (by apply reachable_inv).
  destruct (_active (tool w)) eqn:Hactive; simpl; [|done].
  destruct (bool_decide (_chart (tool w) = Some chart)) eqn:Hchart; [|done].
  apply bool_decide_eq_true_1 in Hchart.
  destruct Hignored as [Hnone|[Hne|Hfalse]]; [|done..].
  unfold clickHandler. unfold_M. rewrite Hactive. simpl.
  destruct (ev_point param) as [pt|] eqn:Hpt; [|done].
  destruct (ev_time param) as [t|] eqn:Ht; [|done].
  destruct (time_truthy t) eqn:Htruthy; simpl; [|done].
  destruct (_series (tool w)) as [series|]; [|done].
  specialize (Hnone series eq_refl). unfold click_point in Hnone.
  rewrite Hpt, Ht, Htruthy in Hnone.
  by destruct (coordinateToPrice (viewport (host w)) series (pt_y pt)) as [[p|]|].
Qed.


(** X7.  A pointer-move notification on the stored chart of an active
    tool, whose price conversion does not throw, sets the temp point to
    the point a click there would commit, or to null if a click there
    would be ignored.  It commits nothing, leaves the view's cache and
    cached temp view point alone until the next [update], and calls the
    repaint callback once if the tool holds one. *)
Theorem pointer_move_sets_tempPoint w chart series param :
  reachable w ->
  _active (tool w) = true ->
  _chart (tool w) = Some chart -> _series (tool w) = Some series ->
  (forall pt, ev_point param = Some pt ->
     coordinateToPrice (viewport (host w)) series (pt_y pt) <> Throw) ->
  let w' := state_after (host_crosshairMove chart param) w in
  result_of (host_crosshairMove chart param) w = Normal tt /\
  _tempPoint (tool w') = click_point (viewport (host w)) series param /\
  committed w' = committed w /\
  view w' = view w /\ cached w' = cached w /\
  repaint_requests (host w') =
    repaint_requests (host w) ++
    match _requestUpdate (tool w) with Some callback => [callback] | None => [] end.
Proof.
  intros Hreach Hactive Hchart Hseries Hnothrow. cbv zeta. unfold state_after, result_of.
  rewrite host_crosshairMove_eq by (by apply reachable_inv).
  rewrite Hactive, Hchart, bool_decide_eq_true_2 by done. simpl.
  assert (Hmove : moveHandler param w =
            _updateView (with_tool
              (set_tempPoint (click_point (viewport (host w)) series param)) w)).
  { unfold moveHandler, click_point. unfold_M. unfold modify.
    rewrite Hactive, Hseries.
    destruct (ev_point param) as [pt|] eqn:Hpt; [|done].
    destruct (ev_time param) as [t|]; [|done].
    destruct (time_truthy t); simpl; [|done].
    specialize (Hnothrow pt eq_refl).
    by destruct (coordinateToPrice (viewport (host w)) series (pt_y pt)) as [[p|]|]. }
  rewrite Hmove.
  rewrite _updateView_committed, _updateView_tool, _updateView_view, _updateView_requests.
  unfold cached. rewrite _updateView_heap, _updateView_view.
  split; [by rewrite _updateView_eq|]. done.
Qed.

(** X8.  The handlers do not catch: when the price conversion throws on
    a notification that carries a pixel point and a truthy time, the
    exception reaches the host from the click handler and from the move
    handler alike, and the world is left as it was (the temp point is not
    cleared). *)
Theorem handler_exception_reaches_host w chart series param pt t :
  reachable w ->
  _active (tool w) = true ->
  _chart (tool w) = Some chart -> _series (tool w) = Some series ->
  ev_point param = Some pt -> ev_time param = Some t -> time_truthy t = true ->
  coordinateToPrice (viewport (host w)) series (pt_y pt) = Throw ->
  host_click chart param w = (w, Throw) /\
  host_crosshairMove chart param w = (w, Throw).
Proof.
  intros Hreach Hactive Hchart Hseries Hpt Ht Htruthy Hthrow.
  pose proof (reachable_inv w Hreach) as Hinv.
  rewrite host_click_eq, host_crosshairMove_eq by done.
  rewrite Hactive, Hchart, bool_decide_eq_true_2 by done. simpl.
  unfold clickHandler, moveHandler. unfold_M.
  by rewrite Hactive, Hseries, Hpt, Ht, Htruthy; simpl; rewrite Hthrow.
Qed.

(** ** Leaving drawing mode *)

Lemma deactivate_leaves_inactive w :
  inv w -> _active (tool (fst (deactivate w))) = false.
Proof.
  intros Hinv. destruct (deactivate_cases w) as [Hsame|(_ & Hinactive & _)]; [|done].
  destruct (_active (tool w)) eqn:Hactive; [|by rewrite Hsame].
  pose proof (inv_subscriptions w Hinv) as Hsub.
  unfold subscriptions_consistent in Hsub. rewrite Hactive in Hsub.
  destruct Hsub as (chart & series & click & move & Hc & _ & Hch & Hmh & _).
  rewrite (deactivate_active w chart click move) by done.
  by rewrite _updateView_tool.
Qed.

Lemma deactivate_requests w :
  inv w ->
  repaint_requests (host (fst (deactivate w))) =
  repaint_requests (host w) ++
  (if _active (tool w)
   then match _requestUpdate (tool w) with Some callback => [callback] | None => [] end
   else []).
Proof.
  intros Hinv. destruct (_active (tool w)) eqn:Hactive.
  - pose proof (inv_subscriptions w Hinv) as Hsub.
    unfold subscriptions_consistent in Hsub. rewrite Hactive in Hsub.
    destruct Hsub as (chart & series & click & move & Hc & _ & Hch & Hmh & _).
    rewrite (deactivate_active w chart click move) by done.
    by rewrite _updateView_requests.
  - rewrite deactivate_noop by auto. simpl. by rewrite app_nil_r.
Qed.

(** X9.  [detached()] in any reachable world returns normally and leaves
    the tool inactive with no handle, no handler, no temp point, no
    registered callback and no repaint callback, while the committed
    points and the view's cache stay.  One last repaint is requested if
    the tool was active and attached; afterwards notifications change
    nothing and [clearPoints()] requests no repaint. *)
Theorem detached_releases_everything w :
  reachable w ->
  let w' := state_after detached w in
  result_of detached w = Normal tt /\
  _active (tool w') = false /\
  _chart (tool w') = None /\ _series (tool w') = None /\
  _clickHandler (tool w') = None /\ _moveHandler (tool w') = None /\
  _tempPoint (tool w') = None /\ _requestUpdate (tool w') = None /\
  click_subscribers (host w') = [] /\ move_subscribers (host w') = [] /\
  committed w' = committed w /\ view w' = view w /\
  repaint_requests (host w') =
    repaint_requests (host w) ++
    (if _active (tool w)
     then match _requestUpdate (tool w) with Some callback => [callback] | None => [] end
     else []) /\
  (forall chart param,
     host_click chart param w' = (w', Normal tt) /\
     host_crosshairMove chart param w' = (w', Normal tt)) /\
  repaint_requests (host (state_after clearPoints w')) = repaint_requests (host w').
Proof.
  intros Hreach. cbv zeta. unfold state_after, result_of.
  pose proof (reachable_inv _ (reach_detached w Hreach)) as Hinv'.
  pose proof (reach_deactivate w Hreach) as Hreachd.
  unfold state_after in Hinv', Hreachd. rewrite detached_eq in *. cbn [fst snd] in *.
  pose proof (reachable_inv w Hreach) as Hinv.
  pose proof (deactivate_leaves_inactive w Hinv) as Hinactive.
  pose proof (reachable_idle_no_temp _ Hreachd Hinactive) as Htemp.
  pose proof (inv_subscriptions _ (reachable_inv _ Hreachd)) as Hsub.
  unfold subscriptions_consistent in Hsub. rewrite Hinactive in Hsub.
  destruct Hsub as (Hc & Hs & Hch & Hmh & Hcs & Hms).
  destruct (deactivate_frame w) as (_ & Hview & _).
  assert (Hclear : forall w0 : World (num:=num),
    _requestUpdate (tool w0) = None ->
    repaint_requests (host (fst (clearPoints w0))) = repaint_requests (host w0)).
  { intros w0 Hnone. rewrite clearPoints_eq, _updateView_requests. simpl.
    by rewrite Hnone, app_nil_r. }
  split; [done|]. rewrite Hclear by done. simpl.
  repeat (split; [done|]).
  split; [apply deactivate_committed|]. split; [done|].
  split; [by apply deactivate_requests|].
  split; [|done].
  intros chart param. rewrite host_click_eq, host_crosshairMove_eq by done.
  simpl. by rewrite Hinactive.
Qed.

(** X10.  [deactivate()] does not reach the pane view: once the handles
    are cleared, [update] returns at once, so after a [deactivate()] and
    any later [paneViews()] the view still holds the cache and the cached
    temp view point it had, and a new renderer still gets that preview
    point, although the tool's temp point is null. *)
Theorem deactivate_keeps_cached_preview w :
  reachable w ->
  let w' := state_after paneViews (state_after deactivate w) in
  view w' = view w /\
  cached w' = cached w /\
  _tempPoint (tool w') = None /\
  exists r,
    renderer w' = (w', Normal r) /\
    data_tempPoint r = _tempViewPoint (view w) /\
    data_points r = _viewPoints (view w).
Proof.
  intros Hreach. cbv zeta. unfold state_after, paneViews.
  pose proof (reachable_inv w Hreach) as Hinv.
  pose proof (deactivate_leaves_inactive w Hinv) as Hinactive.
  pose proof (reach_deactivate w Hreach) as Hreachd. unfold state_after in Hreachd.
  pose proof (reachable_idle_no_temp _ Hreachd Hinactive) as Htemp.
  pose proof (inv_subscriptions _ (reachable_inv _ Hreachd)) as Hsub.
  unfold subscriptions_consistent in Hsub. rewrite Hinactive in Hsub.
  destruct Hsub as (Hc & _).
  rewrite (update_absent (fst (deactivate w))) by auto. cbn [fst].
  destruct (deactivate_frame w) as (_ & Hview & Hheap & _).
  split; [done|]. split; [unfold cached; by rewrite Hheap, Hview|].
  split; [done|].
  eexists. split; [reflexivity|]. simpl. by rewrite Hview.
Qed.

(** ** Clearing and restyling *)

Lemma clearPoints_tool w :
  tool (fst (clearPoints w)) =
  set_tempPoint None (set_points (List.length (point_arrays (heap w))) (tool w)).
Proof. by rewrite clearPoints_eq, _updateView_tool. Qed.

(** X11.  [clearPoints()] itself leaves the view's cache alone.  While
    both handles are stored, the next [paneViews()] empties the cache and
    the cached temp view point; while a handle is missing (an inactive
    tool), the cache keeps the old view points also after [paneViews()],
    so the cleared polyline stays in the payload. *)
Theorem clearPoints_cache w :
  cached (state_after clearPoints w) = cached w /\
  (forall series chart,
     _series (tool w) = Some series -> _chart (tool w) = Some chart ->
     cached (state_after paneViews (state_after clearPoints w)) = [] /\
     _tempViewPoint (view (state_after paneViews (state_after clearPoints w))) = None) /\
  (_series (tool w) = None \/ _chart (tool w) = None ->
   cached (state_after paneViews (state_after clearPoints w)) = cached w /\
   _tempViewPoint (view (state_after paneViews (state_after clearPoints w))) =
     _tempViewPoint (view w)).
Proof.
  unfold state_after, paneViews.
  assert (Hcached : cached (fst (clearPoints w)) = cached w).
  { rewrite clearPoints_eq. unfold cached. by rewrite _updateView_heap, _updateView_view. }
  assert (Hview : view (fst (clearPoints w)) = view w).
  { by rewrite clearPoints_eq, _updateView_view. }
  assert (Hcommitted : committed (fst (clearPoints w)) = []).
  { rewrite clearPoints_eq, _updateView_committed. apply fresh_points_committed. }
  pose proof (clearPoints_tool w) as Htool.
  split; [done|]. split.
  - intros series chart Hs Hc.
    rewrite (update_present (fst (clearPoints w)) series chart)
      by (by rewrite Htool).
    cbn [fst]. rewrite cached_projection_pass, Hcommitted. simpl.
    by rewrite Htool.
  - intros Habsent.
    rewrite (update_absent (fst (clearPoints w))) by (by rewrite Htool).
    cbn [fst]. by rewrite Hcached, Hview.
Qed.

Lemma style_applyOptions options w :
  style (fst (applyOptions options w)) = spread (style w) options.
Proof.
  rewrite applyOptions_eq. unfold style at 1.
  rewrite _updateView_heap, _updateView_tool. simpl.
  by rewrite lookup_app_r, Nat.sub_diag.
Qed.

Lemma spread_idempotent (base : PolylineOptions (num:=num)) over :
  spread (spread base over) over = spread base over.
Proof.
  unfold spread; simpl.
  destruct (p_color over), (p_lineWidth over), (p_lineStyle over), (p_dashPattern over),
    (p_pointRadius over), (p_pointColor over); reflexivity.
Qed.

(** X12.  [applyOptions(partial)] overrides exactly the given fields:
    each field of the style in force afterwards is the value given for it
    in the partial, or the earlier value when the partial does not give
    one.  Applying the same partial again changes no style field, and an
    empty partial keeps every field.  The call changes neither the
    committed points nor the view, and calls the repaint callback once if
    the tool holds one. *)
Theorem applyOptions_overrides_given_fields w options :
  let w' := state_after (applyOptions options) w in
  result_of (applyOptions options) w = Normal tt /\
  color (style w') = default (color (style w)) (p_color options) /\
  lineWidth (style w') = default (lineWidth (style w)) (p_lineWidth options) /\
  lineStyle (style w') = default (lineStyle (style w)) (p_lineStyle options) /\
  dashPattern (style w') =
    match p_dashPattern options with
    | Some pattern => Some pattern
    | None => dashPattern (style w)
    end /\
  pointRadius (style w') = default (pointRadius (style w)) (p_pointRadius options) /\
  pointColor (style w') = default (pointColor (style w)) (p_pointColor options) /\
  style (state_after (applyOptions options) w') = style w' /\
  style (state_after (applyOptions
           {| p_color := None; p_lineWidth := None; p_lineStyle := None;
              p_dashPattern := None; p_pointRadius := None; p_pointColor := None |}) w) =
    style w /\
  committed w' = committed w /\ view w' = view w /\
  repaint_requests (host w') =
    repaint_requests (host w) ++
    match _requestUpdate (tool w) with Some callback => [callback] | None => [] end.
Proof.
  cbv zeta. unfold state_after, result_of.
  rewrite !style_applyOptions, spread_idempotent.
  split; [by rewrite applyOptions_eq, _updateView_eq|].
  repeat (split; [done|]).
  split; [by destruct (style w)|].
  rewrite applyOptions_eq, _updateView_committed, _updateView_view, _updateView_requests.
  done.
Qed.

(** X13.  The change listener of the colour picker sets the stroke colour
    and the marker colour to the picked value and keeps the line width,
    line style, dash pattern and marker radius. *)
Theorem colorPicker_sets_both_colors w value :
  let o := style (state_after (colorPicker_change value) w) in
  color o = value /\ pointColor o = value /\
  lineWidth o = lineWidth (style w) /\ lineStyle o = lineStyle (style w) /\
  dashPattern o = dashPattern (style w) /\ pointRadius o = pointRadius (style w).
Proof.
  cbv zeta. unfold state_after, colorPicker_change. rewrite style_applyOptions. done.
Qed.

(** X14.  The draw button of the toolbar can switch drawing mode off but
    never on: in a reachable world its click listener deactivates an
    active tool, and on an inactive tool - whose handles [deactivate] and
    the constructor leave null - it does nothing. *)
Theorem toolbar_button_never_activates w :
  reachable w ->
  (_active (tool w) = true -> toolbar_button_click w = deactivate w) /\
  (_active (tool w) = false -> toolbar_button_click w = (w, Normal tt)).
Proof.
  intros Hreach. pose proof (inv_subscriptions w (reachable_inv w Hreach)) as Hsub.
  unfold subscriptions_consistent in Hsub.
  unfold toolbar_button_click. unfold_M.
  split; intros Hactive; rewrite Hactive in *; [done|].
  by destruct Hsub as (-> & _).
Qed.

(** X15.  A newly constructed tool is inert: each field of its style is
    the constructor's option for it, or else the default (stroke and
    marker colour #2962FF, width 2, solid, no dash pattern, radius 4); it
    is inactive, [getPoints()] returns an empty array, click and
    pointer-move notifications on any chart change nothing, and the
    renderer obtained after the first [paneViews()] only saves and
    restores the drawing state. *)
Theorem new_tool_paints_nothing given vp hpr vpr :
  let w := state_after paneViews (new_PolylineDrawingTool given vp) in
  color (style w) = default "#2962FF"%string (p_color given) /\
  lineWidth (style w) = default (nlit 2) (p_lineWidth given) /\
  lineStyle (style w) = default solid (p_lineStyle given) /\
  dashPattern (style w) = p_dashPattern given /\
  pointRadius (style w) = default (nlit 4) (p_pointRadius given) /\
  pointColor (style w) = default "#2962FF"%string (p_pointColor given) /\
  _active (tool w) = false /\
  (exists l,
     result_of getPoints w = Normal l /\
     point_arrays (heap (state_after getPoints w)) !! l = Some []) /\
  (forall chart param,
     host_click chart param w = (w, Normal tt) /\
     host_crosshairMove chart param w = (w, Normal tt)) /\
  exists r data,
    renderer w = (w, Normal r) /\
    observe w r = Some data /\
    options data = style w /\
    points data = [] /\ tempPoint data = None /\
    draw hpr vpr data = [save; restore].
Proof.
  cbv zeta. unfold state_after, result_of, paneViews.
  rewrite update_absent by (by left). cbn [fst].
  split; [done|]. split; [done|]. split; [done|].
  split; [unfold style; simpl; by destruct (p_dashPattern given)|].
  split; [done|]. split; [done|]. split; [done|].
  split; [by eexists|].
  split; [done|].
  by eexists _, _.
Qed.

(** ** The structure of a paint *)

Section DrawStructure.
Variables hpr vpr : num.

Lemma line_style_plain opts :
  List.filter is_state_call (line_style hpr opts) = [] /\
  List.filter is_stroke_call (line_style hpr opts) = [] /\
  List.filter is_fill_call (line_style hpr opts) = [].
Proof.
  unfold line_style. destruct (lineStyle opts); [done|].
  by destruct (dashPattern opts).
Qed.

Lemma lineTo_each_plain (rest : list (ViewPoint (num:=num))) :
  List.filter is_state_call (lineTo_each hpr vpr rest) = [] /\
  List.filter is_stroke_call (lineTo_each hpr vpr rest) = [] /\
  List.filter is_fill_call (lineTo_each hpr vpr rest) = [].
Proof.
  induction rest as [|v rest IH]; [done|]. simpl.
  by destruct (vp_x v), (vp_y v).
Qed.

Lemma lineTo_temp_plain (t : option (ViewPoint (num:=num))) :
  List.filter is_state_call (lineTo_temp hpr vpr t) = [] /\
  List.filter is_stroke_call (lineTo_temp hpr vpr t) = [] /\
  List.filter is_fill_call (lineTo_temp hpr vpr t) = [].
Proof. by destruct t as [[[a|] [b|]]|]. Qed.

Lemma marker_each_plain opts (pts : list (ViewPoint (num:=num))) :
  List.filter is_state_call (marker_each hpr vpr opts pts) = [] /\
  List.filter is_stroke_call (marker_each hpr vpr opts pts) = [] /\
  List.length (List.filter is_fill_call (marker_each hpr vpr opts pts)) =
    List.length (pixels pts).
Proof.
  induction pts as [|v pts (IHs & IHk & IHf)]; [done|]. simpl.
  destruct (vp_x v), (vp_y v); try done.
  simpl. by rewrite IHs, IHk, IHf.
Qed.

(** X16.  Whatever the payload, [draw] saves the drawing state first and
    restores it last, exactly once each, on every path through the
    function. *)
Theorem draw_saves_and_restores_once data :
  exists body,
    draw hpr vpr data = save :: body ++ [restore] /\
    List.filter is_state_call body = [].
Proof.
  destruct data as [pts opts t]. destruct pts as [|first rest].
  - destruct t as [[[a|] [b|]]|]; simpl.
    + by eexists [_; _; _; _].
    + by exists [].
    + by exists [].
    + by exists [].
    + by exists [].
  - unfold draw.
    destruct (line_style_plain opts) as (Hs & _).
    destruct (lineTo_each_plain rest) as (Hl & _).
    destruct (lineTo_temp_plain t) as (Ht & _).
    destruct (marker_each_plain opts (first :: rest)) as (Hm & _).
    exists (line_style hpr opts ++ [beginPath] ++
            match vp_x first, vp_y first with
            | Some a, Some b =>
                [moveTo (pixelX hpr a) (pixelY vpr b)] ++ lineTo_each hpr vpr rest ++
                lineTo_temp hpr vpr t ++ [stroke; set_fillStyle (pointColor opts)] ++
                marker_each hpr vpr opts (first :: rest)
            | _, _ => []
            end).
    split; [by rewrite <- !app_assoc|].
    rewrite !List.filter_app, Hs.
    destruct (vp_x first), (vp_y first); try done.
    by rewrite !List.filter_app, Hl, Ht, Hm.
Qed.

Lemma segments_plain (ps : list (num * num)) :
  path_calls (map (segment_to hpr vpr) ps) = map (segment_to hpr vpr) ps /\
  arc_calls (map (segment_to hpr vpr) ps) = [] /\
  List.filter is_fill_call (map (segment_to hpr vpr) ps) = [] /\
  List.filter is_stroke_call (map (segment_to hpr vpr) ps) = [].
Proof.
  induction ps as [|p ps (IHp & IHa & IHf & IHs)]; [done|].
  unfold path_calls, arc_calls in *. simpl. by rewrite IHp, IHa, IHf, IHs.
Qed.

Lemma circles_of_markers opts (ps : list (num * num)) :
  List.flat_map (fun p => [beginPath; marker_arc hpr vpr opts p; fill]) ps =
  List.flat_map (fun c => [beginPath; c; fill]) (map (marker_arc hpr vpr opts) ps).
Proof. induction ps as [|p ps IH]; [done|]. simpl. by rewrite IH. Qed.

(** X17.  [draw] strokes the path exactly once when there is a committed
    point and the first one is resolved, and never otherwise.  The paint
    is laid out as: the calls that build the path, all of them between
    one [beginPath] and the one [stroke]; then the circles, each drawn as
    [beginPath; arc; fill] of its own; then [restore].  Nothing is filled
    but the circles, and no circle is drawn before the stroke. *)
Theorem draw_strokes_once_and_fills_each_circle data :
  List.filter is_stroke_call (draw hpr vpr data) =
    match points data with
    | first :: _ => if resolved first then [stroke] else []
    | [] => []
    end /\
  List.length (List.filter is_fill_call (draw hpr vpr data)) =
    List.length (arc_calls (draw hpr vpr data)) /\
  exists before circles,
    draw hpr vpr data =
      save :: before ++ List.flat_map (fun c => [beginPath; c; fill]) circles ++ [restore] /\
    circles = arc_calls (draw hpr vpr data) /\
    List.filter is_fill_call before = [] /\
    arc_calls before = [] /\
    match points data with
    | first :: _ =>
        if resolved first then
          exists path,
            before = line_style hpr (options data) ++ beginPath :: path ++
                     [stroke; set_fillStyle (pointColor (options data))] /\
            path = path_calls (draw hpr vpr data) /\
            path <> []
        else List.filter is_stroke_call before = [] /\ path_calls before = []
    | [] => List.filter is_stroke_call before = [] /\ path_calls before = []
    end.
Proof.
  destruct data as [pts opts t]. cbn [points options]. destruct pts as [|first rest].
  - split; [by destruct t as [[[a|] [b|]]|]|].
    split; [by destruct t as [[[a|] [b|]]|]|].
    destruct t as [[[a|] [b|]]|].
    + by exists [set_fillStyle (pointColor opts)], [marker_arc hpr vpr opts (a, b)].
    + by exists [], [].
    + by exists [], [].
    + by exists [], [].
    + by exists [], [].
  - destruct (draw_committed_calls hpr vpr opts first rest t) as (Hpath & Harc).
    destruct (line_style_plain opts) as (_ & Hs & Hsf).
    destruct (line_style_calls hpr opts) as (Hsp & Hsa).
    split; [|split].
    + unfold draw, resolved.
      destruct (lineTo_each_plain rest) as (_ & Hl & _).
      destruct (lineTo_temp_plain t) as (_ & Ht & _).
      destruct (marker_each_plain opts (first :: rest)) as (_ & Hm & _).
      cbn [List.filter is_stroke_call].
      rewrite !List.filter_app, Hs.
      destruct (vp_x first) as [a|], (vp_y first) as [b|]; try done.
      by rewrite !List.filter_app, Hl, Ht, Hm.
    + rewrite Harc. unfold draw.
      destruct (lineTo_each_plain rest) as (_ & _ & Hlf).
      destruct (lineTo_temp_plain t) as (_ & _ & Htf).
      destruct (marker_each_plain opts (first :: rest)) as (_ & _ & Hmf).
      cbn [List.filter is_fill_call].
      rewrite !List.filter_app, Hsf.
      destruct (vp_x first) as [a|] eqn:Hx, (vp_y first) as [b|] eqn:Hy; try done.
      rewrite !List.filter_app, Hlf, Htf, !length_app, Hmf, length_map. done.
    + unfold resolved.
      destruct (vp_x first) as [a|] eqn:Hx; [destruct (vp_y first) as [b|] eqn:Hy|].
      * destruct (segments_plain (pixels rest ++ pixels (option_list t)))
          as (Hgp & Hga & Hgf & _).
        exists (line_style hpr opts ++
                beginPath ::
                (start_at hpr vpr (a, b) ::
                 map (segment_to hpr vpr) (pixels rest ++ pixels (option_list t))) ++
                [stroke; set_fillStyle (pointColor opts)]),
          (map (marker_arc hpr vpr opts) (pixels (first :: rest))).
        split.
        { rewrite (draw_first_resolved hpr vpr opts first rest t a b Hx Hy).
          rewrite circles_of_markers, <- !app_assoc. cbn [app]. by rewrite <- !app_assoc. }
        split; [by rewrite Harc|].
        split.
        { rewrite !List.filter_app, Hsf. cbn [List.filter is_fill_call app].
          by rewrite List.filter_app, Hgf. }
        split.
        { unfold arc_calls in *. rewrite !List.filter_app, Hsa.
          cbn [List.filter is_arc_call app start_at].
          by rewrite List.filter_app, Hga. }
        eexists. split; [reflexivity|]. split; [|done].
        rewrite Hpath, map_app, <- lineTo_temp_pixels. done.
      * exists (line_style hpr opts ++ [beginPath]), [].
        split.
        { rewrite (draw_first_unresolved hpr vpr opts first rest t)
            by (unfold resolved; by rewrite Hx, Hy).
          cbn [List.flat_map app]. by rewrite <- !app_assoc. }
        split; [by rewrite Harc|].
        unfold path_calls, arc_calls in *.
        by rewrite !List.filter_app, Hsf, Hsa, Hs, Hsp.
      * exists (line_style hpr opts ++ [beginPath]), [].
        split.
        { rewrite (draw_first_unresolved hpr vpr opts first rest t)
            by (unfold resolved; by rewrite Hx).
          cbn [List.flat_map app]. by rewrite <- !app_assoc. }
        split; [by rewrite Harc|].
        unfold path_calls, arc_calls in *.
        by rewrite !List.filter_app, Hsf, Hsa, Hs, Hsp.
Qed.

End DrawStructure.



(** ** Single steps *)

Lemma toolbar_button_click_cases w :
  toolbar_button_click w = deactivate w \/
  toolbar_button_click w = (w, Normal tt) \/
  exists chart series, toolbar_button_click w = activate chart series w.
Proof.
  unfold toolbar_button_click. unfold_M.
  destruct (_active (tool w)); [by left|].
  destruct (_chart (tool w)) as [chart|]; [|by right; left].
  destruct (_series (tool w)) as [series|]; [|by right; left].
  right; right. by exists chart, series.
Qed.

(** A step from a reachable world ends in a reachable world. *)
Lemma step_reachable w w' : reachable w -> step w w' -> reachable w'.
Proof.
  intros Hreach Hstep. destruct Hstep; try (by constructor).
  - unfold state_after.
    destruct (toolbar_button_click_cases w) as [->|[->|(chart & series & ->)]].
    + by apply reach_deactivate.
    + done.
    + by apply reach_activate.
Qed.

Lemma steps_reachable w w' : reachable w -> rtc step w w' -> reachable w'.
Proof. intros Hreach Hsteps. induction Hsteps; eauto using step_reachable. Qed.

Lemma activate_committed w chart series :
  committed (fst (activate chart series w)) = committed w.
Proof.
  destruct (_active (tool w)) eqn:Hactive.
  - by rewrite activate_active.
  - by rewrite activate_inactive.
Qed.

Lemma applyOptions_committed options w :
  committed (fst (applyOptions options w)) = committed w.
Proof. by rewrite applyOptions_eq, _updateView_committed. Qed.

Lemma clearPoints_committed w : committed (fst (clearPoints w)) = [].
Proof. rewrite clearPoints_eq, _updateView_committed. apply fresh_points_committed. Qed.

(** X19.  The committed sequence is append-only: one call of the public
    interface, of a toolbar listener or of the host either keeps it, or
    appends one point to it, or - [clearPoints] and the clear button only -
    empties it.  No call reorders, replaces or drops single points. *)
Theorem committed_append_only w w' :
  reachable w -> step w w' ->
  committed w' = committed w \/
  (exists point, committed w' = committed w ++ [point]) \/
  committed w' = [].
Proof.
  intros Hreach Hstep. pose proof (reachable_inv w Hreach) as Hinv.
  destruct Hstep; unfold state_after.
  - by left.
  - left. rewrite detached_eq. apply deactivate_committed.
  - left. apply activate_committed.
  - left. apply deactivate_committed.
  - right; right. apply clearPoints_committed.
  - left. apply applyOptions_committed.
  - left. by destruct (getPoints_copy w (inv_points w Hinv)) as (_ & _ & _ & _ & ? & _).
  - right; left. eexists. by apply _addPoint_committed, inv_points.
  - left. apply update_committed.
  - rewrite host_click_eq by done. destruct (_ && _); [|by left].
    destruct (clickHandler_cases w param) as [->|[point ->]]; [by left|].
    right; left. eexists. by apply _addPoint_committed, inv_points.
  - rewrite host_crosshairMove_eq by done. destruct (_ && _); [|by left].
    destruct (moveHandler_cases w param) as [->|[t ->]]; [by left|].
    left. by rewrite _updateView_committed.
  - by left.
  - left. unfold committed; simpl. by rewrite list_lookup_insert_ne.
  - destruct (toolbar_button_click_cases w) as [->|[->|(chart & series & ->)]].
    + left. apply deactivate_committed.
    + by left.
    + left. apply activate_committed.
  - left. apply applyOptions_committed.
  - right; right. apply clearPoints_committed.
Qed.

Lemma extends_refl w : extends w w.
Proof. by split. Qed.

Lemma extends_same_heap w w' : heap w' = heap w -> extends w w'.
Proof. intros Hheap. unfold extends. by rewrite Hheap. Qed.

Lemma extends_trans w1 w2 w3 : extends w1 w2 -> extends w2 w3 -> extends w1 w3.
Proof. intros [? ?] [? ?]. split; by etrans. Qed.

Lemma update_extends w : extends w (fst (update w)).
Proof.
  destruct (update_heap_grows w) as [Hv Ho]. split; [done|by rewrite Ho].
Qed.

Lemma _addPoint_extends point w : extends w (fst (_addPoint point w)).
Proof.
  rewrite _addPoint_eq.
  apply extends_trans with (fst (update (fst (push_point point w)))).
  - destruct (update_extends (fst (push_point point w))) as [Hv Ho]. by split.
  - apply extends_same_heap, _updateView_heap.
Qed.

Lemma activate_extends chart series w : extends w (fst (activate chart series w)).
Proof.
  destruct (_active (tool w)) eqn:Hactive.
  - rewrite activate_active by done. apply extends_refl.
  - rewrite activate_inactive by done. by split.
Qed.

Lemma deactivate_extends w : extends w (fst (deactivate w)).
Proof. apply extends_same_heap. by destruct (deactivate_frame w) as (_ & _ & ? & _). Qed.

Lemma applyOptions_extends options w : extends w (fst (applyOptions options w)).
Proof.
  rewrite applyOptions_eq. unfold extends. rewrite _updateView_heap. simpl.
  split; [done|by apply prefix_app_r].
Qed.

Lemma clearPoints_extends w : extends w (fst (clearPoints w)).
Proof. rewrite clearPoints_eq. unfold extends. by rewrite _updateView_heap. Qed.

(** No step writes to a view point array or an options object that
    exists already. *)
Lemma step_extends w w' : inv w -> step w w' -> extends w w'.
Proof.
  intros Hinv Hstep. destruct Hstep; unfold state_after.
  - by split.
  - rewrite detached_eq. apply (deactivate_extends w).
  - apply activate_extends.
  - apply deactivate_extends.
  - apply clearPoints_extends.
  - apply applyOptions_extends.
  - by split.
  - apply _addPoint_extends.
  - apply update_extends.
  - rewrite host_click_eq by done. destruct (_ && _); [|apply extends_refl].
    destruct (clickHandler_cases w param) as [->|[point ->]]; [apply extends_refl|].
    apply _addPoint_extends.
  - rewrite host_crosshairMove_eq by done. destruct (_ && _); [|apply extends_refl].
    destruct (moveHandler_cases w param) as [->|[t ->]]; [apply extends_refl|].
    apply extends_same_heap. by rewrite _updateView_heap.
  - by split.
  - by split.
  - destruct (toolbar_button_click_cases w) as [->|[->|(chart & series & ->)]].
    + apply deactivate_extends.
    + apply extends_refl.
    + apply activate_extends.
  - apply applyOptions_extends.
  - apply clearPoints_extends.
Qed.

Lemma steps_keep_payload w w' (r : PolylineRenderer (num:=num)) data :
  reachable w -> rtc step w w' ->
  observe w r = Some data -> observe w' r = Some data.
Proof.
  intros Hreach Hsteps. induction Hsteps as [|w1 w2 w3 Hstep _ IH]; [done|].
  intros Hobs. apply IH.
  - by apply step_reachable with w1.
  - destruct (step_extends w1 w2 (reachable_inv w1 Hreach) Hstep) as [Hv Ho].
    by apply observe_mono with w1.
Qed.

(** X20.  No call ever writes to an array or options object that a
    renderer holds: the payload a renderer of a reachable world reads -
    points, temp point and options - is read unchanged after any number
    of later calls of the public interface, of the toolbar listeners and
    of the host (clicks, pointer moves, clearing, restyling, detaching
    included). *)
Theorem renderer_payload_survives_every_step w w' r :
  reachable w ->
  renderer w = (w, Normal r) ->
  rtc step w w' ->
  exists data,
    observe w r = Some data /\
    points data = cached w /\
    observe w' r = Some data.
Proof.
  intros Hreach Hr Hsteps.
  destruct (renderer_observes w (reachable_inv w Hreach)) as (opts & Hr' & Hobs).
  rewrite Hr' in Hr. simplify_eq.
  eexists. split; [exact Hobs|]. split; [done|].
  by apply steps_keep_payload with w.
Qed.

(** X21.  Leaving and re-entering drawing mode continues the same
    polyline: after [deactivate()] and a new [activate(chart, series)] the
    tool is active on the new handles with the committed points it had,
    and the next accepted click on that chart is appended to them. *)
Theorem reactivation_continues_polyline w chart series param point :
  reachable w ->
  click_point (viewport (host w)) series param = Some point ->
  let w1 := state_after (activate chart series) (state_after deactivate w) in
  _active (tool w1) = true /\
  _chart (tool w1) = Some chart /\ _series (tool w1) = Some series /\
  committed w1 = committed w /\
  committed (state_after (host_click chart param) w1) = committed w ++ [point].
Proof.
  intros Hreach Hclick. cbv zeta. unfold state_after.
  pose proof (reach_activate _ chart series (reach_deactivate w Hreach)) as Hreach1.
  unfold state_after in Hreach1.
  pose proof (deactivate_leaves_inactive w (reachable_inv w Hreach)) as Hinactive.
  pose proof (activate_committed (fst (deactivate w)) chart series) as Hcommitted.
  rewrite deactivate_committed in Hcommitted.
  destruct (deactivate_frame w) as (_ & _ & _ & _ & _ & _ & Hvp).
  assert (Hfields : _active (tool (fst (activate chart series (fst (deactivate w))))) = true /\
            _chart (tool (fst (activate chart series (fst (deactivate w))))) = Some chart /\
            _series (tool (fst (activate chart series (fst (deactivate w))))) = Some series /\
            viewport (host (fst (activate chart series (fst (deactivate w))))) =
              viewport (host w)).
  { by rewrite (activate_inactive _ chart series Hinactive). }
  destruct Hfields as (Hactive & Hchart & Hseries & Hvp1).
  repeat (split; [done|]).
  rewrite (host_click_accept _ chart series param point)
    by (by rewrite ?Hvp1; try apply reachable_inv).
  rewrite _addPoint_committed by (by apply inv_points, reachable_inv).
  by rewrite Hcommitted.
Qed.

End Properties.

(** * The claims on concrete worlds *)

Lemma world_out_of_range_reachable : reachable world_out_of_range.
Proof.
  apply reach_paneViews, reach_crosshairMove, reach_click, reach_click,
    reach_activate, reach_attached, reach_new.
Defined.

Lemma world_deactivated_reachable : reachable world_deactivated.
Proof. apply reach_deactivate, reach_click, reach_activate, reach_new. Defined.

Lemma world_active_reachable : reachable world_active.
Proof. apply reach_activate, reach_new. Defined.

(** C1, the claim as written fails: with both handles present and a
    committed point outside the visible range, the cache after [update]
    is shorter than the committed sequence. *)
Lemma cache_length_counterexample :
  reachable world_out_of_range /\
  _series (tool world_out_of_range) = Some 1 /\
  _chart (tool world_out_of_range) = Some 1 /\
  result_of update world_out_of_range = Normal tt /\
  committed (state_after update world_out_of_range) =
    [ {| time := UTCTimestamp 100%Z; price := 5%Z |};
      {| time := UTCTimestamp 2000%Z; price := 7%Z |} ] /\
  cached (state_after update world_out_of_range) = [pixel_point 100 5] /\
  List.length (cached (state_after update world_out_of_range)) <>
    List.length (committed (state_after update world_out_of_range)).
Proof.
  split; [exact world_out_of_range_reachable|].
  vm_compute. repeat split; discriminate.
Qed.

Lemma update_caches_resolved_projections_witness :
  _series (tool world_out_of_range) = Some 1 /\
  _chart (tool world_out_of_range) = Some 1 /\
  cached (state_after update world_out_of_range) =
    projected (viewport (host world_out_of_range)) 1 1 (committed world_out_of_range) /\
  List.length (cached (state_after update world_out_of_range)) <=
    List.length (committed (state_after update world_out_of_range)).
Proof.
  split; [reflexivity|]. split; [reflexivity|].
  destruct (update_caches_resolved_projections world_out_of_range 1 1
              eq_refl eq_refl) as (_ & _ & Hcached & _ & Hlen & _).
  split; [exact Hcached|exact Hlen].
Defined.

(** C2, the claim as written fails: when the first committed point is
    unresolved, the two resolvable points are neither connected nor
    marked. *)
Lemma draw_first_unresolved_counterexample :
  pixels (points payload_first_unresolved) = [(10, 20); (30, 40)]%Z /\
  path_calls (draw 1%Z 1%Z payload_first_unresolved) = [] /\
  arc_calls (draw 1%Z 1%Z payload_first_unresolved) = [] /\
  arc_calls (draw 1%Z 1%Z payload_first_unresolved) <>
    map (marker_arc 1%Z 1%Z (options payload_first_unresolved))
        (pixels (points payload_first_unresolved)).
Proof. vm_compute. repeat split; discriminate. Qed.

Lemma draw_skips_unresolved_after_first_witness :
  points payload_middle_unresolved = pixel_point 10 20 :: [null_point; pixel_point 30 40] /\
  draw 1%Z 1%Z payload_middle_unresolved =
    [save; set_strokeStyle "#2962FF"%string; set_lineWidth 2%Z;
     beginPath; moveTo 10%Z 20%Z; lineTo 30%Z 40%Z; lineTo 50%Z 60%Z; stroke;
     set_fillStyle "#2962FF"%string;
     beginPath; arc 10%Z 20%Z 4%Z 0%Z 6%Z; fill;
     beginPath; arc 30%Z 40%Z 4%Z 0%Z 6%Z; fill;
     restore] /\
  path_calls (draw 1%Z 1%Z payload_middle_unresolved) =
    [moveTo 10%Z 20%Z; lineTo 30%Z 40%Z; lineTo 50%Z 60%Z] /\
  arc_calls (draw 1%Z 1%Z payload_middle_unresolved) =
    [arc 10%Z 20%Z 4%Z 0%Z 6%Z; arc 30%Z 40%Z 4%Z 0%Z 6%Z].
Proof.
  split; [reflexivity|].
  exact (proj1 (draw_skips_unresolved_after_first 1%Z 1%Z payload_middle_unresolved
                  (pixel_point 10 20) [null_point; pixel_point 30 40] eq_refl)
           10%Z 20%Z eq_refl eq_refl).
Defined.

Lemma renderer_payload_is_stable_witness :
  exists r data,
    renderer world_out_of_range = (world_out_of_range, Normal r) /\
    observe world_out_of_range r = Some data /\
    points data = [pixel_point 100 5] /\
    tempPoint data = Some (pixel_point 300 9) /\
    cached (state_after (forEach [call_viewport_change wide_viewport; call_update;
                                  call_applyOptions red_options; call_update] later_call)
              world_out_of_range) = [pixel_point 200 10; pixel_point 4000 14] /\
    observe (state_after (forEach [call_viewport_change wide_viewport; call_update;
                                   call_applyOptions red_options; call_update] later_call)
               world_out_of_range) r = Some data.
Proof.
  destruct (renderer_payload_is_stable world_out_of_range
              {| data_points := _viewPoints (view world_out_of_range);
                 data_options := _options (tool world_out_of_range);
                 data_tempPoint := _tempViewPoint (view world_out_of_range) |}
              [call_viewport_change wide_viewport; call_update;
               call_applyOptions red_options; call_update]
              world_out_of_range_reachable eq_refl)
    as (data & Hobs & Hpts & Htemp & _ & Hlater).
  eexists _, data. split; [reflexivity|]. split; [exact Hobs|].
  split; [rewrite Hpts; reflexivity|]. split; [rewrite Htemp; reflexivity|].
  split; [vm_compute; reflexivity|exact Hlater].
Defined.

(** C4, the claim as written fails: after a click and a [deactivate()] the
    handles are absent, and [update] keeps the pixel values of the earlier
    pass in the cache instead of null entries. *)
Lemma update_without_handles_counterexample :
  reachable world_deactivated /\
  _chart (tool world_deactivated) = None /\
  _series (tool world_deactivated) = None /\
  committed (state_after update world_deactivated) =
    [ {| time := UTCTimestamp 100%Z; price := 5%Z |} ] /\
  cached (state_after update world_deactivated) = [pixel_point 100 5] /\
  cached (state_after update world_deactivated) <>
    map (fun _ => null_point) (committed (state_after update world_deactivated)).
Proof.
  split; [exact world_deactivated_reachable|].
  vm_compute. repeat split; discriminate.
Qed.

Lemma update_without_handles_keeps_cache_witness :
  (_series (tool world_deactivated) = None \/ _chart (tool world_deactivated) = None) /\
  result_of update world_deactivated = Normal tt /\
  state_after update world_deactivated = world_deactivated.
Proof.
  split; [left; reflexivity|].
  destruct (update_without_handles_keeps_cache world_deactivated (or_introl eq_refl))
    as (Hres & Hsame & _).
  split; [exact Hres|exact Hsame].
Defined.

Lemma accepted_clicks_are_committed_in_order_witness :
  _active (tool world_active) = true /\
  result_of (host_clicks 1 [pointer_at 100 10; pointer_at 200 20; pointer_at 150 15])
    world_active = Normal tt /\
  committed (state_after
               (host_clicks 1 [pointer_at 100 10; pointer_at 200 20; pointer_at 150 15])
               world_active) =
    [ {| time := UTCTimestamp 100%Z; price := 10%Z |};
      {| time := UTCTimestamp 200%Z; price := 20%Z |};
      {| time := UTCTimestamp 150%Z; price := 15%Z |} ].
Proof.
  split; [reflexivity|].
  destruct (accepted_clicks_are_committed_in_order world_active 1 1
              [pointer_at 100 10; pointer_at 200 20; pointer_at 150 15]
              [ {| time := UTCTimestamp 100%Z; price := 10%Z |};
                {| time := UTCTimestamp 200%Z; price := 20%Z |};
                {| time := UTCTimestamp 150%Z; price := 15%Z |} ]
              world_active_reachable eq_refl eq_refl eq_refl)
    as (Hres & Hpts & _).
  { repeat constructor. }
  split; [exact Hres|exact Hpts].
Defined.

(** A click whose time is the timestamp 0 is dropped by [!param.time]. *)
Lemma click_at_timestamp_zero_is_ignored :
  state_after (host_click 1 (pointer_at 0 10)) world_active = world_active.
Proof. vm_compute. reflexivity. Qed.

(** Claim C5, the code departs from it.  On an active tool a click that
    carries a pixel point, the time 0 (the timestamp of 1 January 1970) and
    a row whose price conversion succeeds is dropped: the handler's test
    [!param.time] takes the number 0 for a missing time.  Three such valid
    clicks at times 100, 0 and 150 leave two committed points, so
    [getPoints()] does not return the clicked points.  [_addPoint], which
    tests the time against [undefined] and [null], commits the same point
    when called with it. *)
Theorem valid_click_at_timestamp_zero_is_dropped :
  _active (tool world_active) = true /\
  _chart (tool world_active) = Some 1 /\ _series (tool world_active) = Some 1 /\
  ev_point (pointer_at 0 10) = Some {| pt_x := 0%Z; pt_y := 10%Z |} /\
  ev_time (pointer_at 0 10) = Some (UTCTimestamp 0%Z) /\
  coordinateToPrice (viewport (host world_active)) 1 10%Z = Normal (Some 10%Z) /\
  host_click 1 (pointer_at 0 10) world_active = (world_active, Normal tt) /\
  committed (state_after
               (host_clicks 1 [pointer_at 100 10; pointer_at 0 10; pointer_at 150 15])
               world_active) =
    [ {| time := UTCTimestamp 100%Z; price := 10%Z |};
      {| time := UTCTimestamp 150%Z; price := 15%Z |} ] /\
  committed (state_after (_addPoint {| time := UTCTimestamp 0%Z; price := 10%Z |})
               world_active) =
    [ {| time := UTCTimestamp 0%Z; price := 10%Z |} ].
Proof. vm_compute. repeat split. Qed.

(** C6, the claim as written fails: on an active tool that was never
    attached, [deactivate()] requests no repaint. *)
Lemma deactivate_unattached_counterexample :
  reachable world_one_point /\
  _active (tool world_one_point) = true /\
  _active (tool (state_after deactivate world_one_point)) = false /\
  repaint_requests (host (state_after deactivate world_one_point)) =
    repaint_requests (host world_one_point) /\
  repaint_requests (host (state_after deactivate world_one_point)) = [].
Proof.
  split; [apply reach_click, reach_activate, reach_new|].
  vm_compute. repeat split.
Qed.

Lemma deactivate_from_active_witness :
  _active (tool world_out_of_range) = true /\
  _tempPoint (tool world_out_of_range) =
    Some {| time := UTCTimestamp 300%Z; price := 9%Z |} /\
  _tempPoint (tool (state_after deactivate world_out_of_range)) = None /\
  committed (state_after deactivate world_out_of_range) = committed world_out_of_range /\
  click_subscribers (host (state_after deactivate world_out_of_range)) = [] /\
  move_subscribers (host (state_after deactivate world_out_of_range)) = [] /\
  repaint_requests (host (state_after deactivate world_out_of_range)) =
    repaint_requests (host world_out_of_range) ++ [4].
Proof.
  split; [reflexivity|]. split; [reflexivity|].
  destruct (deactivate_from_active world_out_of_range world_out_of_range_reachable eq_refl)
    as (_ & Htemp & _ & Hpts & Hcs & Hms & _ & _ & _ & _ & _ & Hreq & _).
  split; [exact Htemp|]. split; [exact Hpts|]. split; [exact Hcs|].
  split; [exact Hms|exact Hreq].
Defined.

Lemma activate_deactivate_idempotent_witness :
  _active (tool world_active) = true /\
  activate 2 3 world_active = (world_active, Normal tt) /\
  _active (tool world_deactivated) = false /\
  deactivate world_deactivated = (world_deactivated, Normal tt).
Proof.
  split; [reflexivity|].
  split; [exact (proj1 (activate_deactivate_idempotent world_active 2 3 2 3) eq_refl)|].
  split; [reflexivity|].
  exact (proj1 (proj2 (activate_deactivate_idempotent world_deactivated 2 3 2 3)) eq_refl).
Defined.

(** C8, the claim as written fails: in the preview payload the one marker
    painted is at the temp point, which is no committed point. *)
Lemma preview_marker_counterexample :
  points payload_preview = [] /\
  tempPoint payload_preview = Some (pixel_point 50 60) /\
  arc_calls (draw 1%Z 1%Z payload_preview) =
    [marker_arc 1%Z 1%Z (options payload_preview) (50, 60)%Z] /\
  arc_calls (draw 1%Z 1%Z payload_preview) <>
    map (marker_arc 1%Z 1%Z (options payload_preview)) (pixels (points payload_preview)).
Proof. vm_compute. repeat split; discriminate. Qed.

Lemma draw_preview_and_temp_witness :
  points payload_preview = [] /\
  draw 1%Z 1%Z payload_preview =
    [save; set_fillStyle "#2962FF"%string; beginPath; arc 50%Z 60%Z 4%Z 0%Z 6%Z; fill;
     restore] /\
  points payload_middle_unresolved <> [] /\
  arc_calls (draw 1%Z 1%Z payload_middle_unresolved) =
    arc_calls (draw 1%Z 1%Z
      {| points := points payload_middle_unresolved;
         options := options payload_middle_unresolved; tempPoint := None |}).
Proof.
  split; [reflexivity|].
  split.
  { exact (proj1 (proj1 (draw_preview_and_temp 1%Z 1%Z payload_preview) eq_refl
                    50%Z 60%Z eq_refl)). }
  assert (Hne : points payload_middle_unresolved <> []) by discriminate.
  split; [exact Hne|].
  exact (proj1 (proj2 (proj2 (draw_preview_and_temp 1%Z 1%Z payload_middle_unresolved))
                  Hne)).
Defined.

(** C9, the claim as written fails: on a tool that was never attached,
    [clearPoints()] empties the committed sequence and requests no
    repaint. *)
Lemma clearPoints_unattached_counterexample :
  reachable world_one_point /\
  committed world_one_point = [ {| time := UTCTimestamp 100%Z; price := 5%Z |} ] /\
  committed (state_after clearPoints world_one_point) = [] /\
  repaint_requests (host (state_after clearPoints world_one_point)) =
    repaint_requests (host world_one_point) /\
  repaint_requests (host (state_after clearPoints world_one_point)) = [].
Proof.
  split; [apply reach_click, reach_activate, reach_new|].
  vm_compute. repeat split.
Qed.

Lemma update_cache_is_drawable_witness :
  Forall (fun v => resolved v = true) (cached (state_after update world_out_of_range)) /\
  cached (state_after update world_out_of_range) = [pixel_point 100 5].
Proof.
  split; [|vm_compute; reflexivity].
  exact (proj1 (update_cache_is_drawable world_out_of_range 1%Z 1%Z
                  world_out_of_range_reachable)).
Defined.

(** * The further properties on concrete worlds *)

Lemma world_throwing_reachable : reachable world_throwing.
Proof. apply reach_viewport_change, world_out_of_range_reachable. Defined.

Lemma world_attached_idle_reachable : reachable world_attached_idle.
Proof. apply reach_attached, reach_new. Defined.

Lemma world_one_point_reachable : reachable world_one_point.
Proof. apply reach_click, reach_activate, reach_new. Defined.

Lemma update_absorbs_host_exceptions_witness :
  _series (tool world_throwing) = Some 1 /\
  _chart (tool world_throwing) = Some 1 /\
  result_of update world_throwing = Normal tt /\
  cached (state_after update world_throwing) = [] /\
  _tempViewPoint (view (state_after update world_throwing)) = None.
Proof.
  split; [reflexivity|]. split; [reflexivity|].
  destruct (update_absorbs_host_exceptions world_throwing 1 1 eq_refl eq_refl)
    as (Hres & _ & _ & Hcache & Htemp).
  split; [exact Hres|]. split.
  - exact (Hcache [] {| time := UTCTimestamp 100%Z; price := 5%Z |}
             [ {| time := UTCTimestamp 2000%Z; price := 7%Z |} ] eq_refl eq_refl).
  - exact (Htemp {| time := UTCTimestamp 300%Z; price := 9%Z |} eq_refl eq_refl).
Defined.

Lemma reachable_activation_consistent_witness :
  _active (tool world_out_of_range) = true /\
  (exists chart series click move,
     _chart (tool world_out_of_range) = Some chart /\
     _series (tool world_out_of_range) = Some series /\
     _clickHandler (tool world_out_of_range) = Some click /\
     _moveHandler (tool world_out_of_range) = Some move /\
     click <> move /\
     click_subscribers (host world_out_of_range) = [(chart, click)] /\
     move_subscribers (host world_out_of_range) = [(chart, move)]) /\
  _active (tool world_deactivated) = false /\
  click_subscribers (host world_deactivated) = [].
Proof.
  split; [reflexivity|].
  split.
  { exact (proj1 (reachable_activation_consistent world_out_of_range
                    world_out_of_range_reachable) eq_refl). }
  split; [reflexivity|].
  destruct (proj2 (reachable_activation_consistent world_deactivated
                     world_deactivated_reachable) eq_refl)
    as (_ & _ & _ & _ & _ & Hcs & _).
  exact Hcs.
Defined.

Lemma activate_from_inactive_witness :
  _active (tool world_attached_idle) = false /\
  _active (tool (state_after (activate 7 8) world_attached_idle)) = true /\
  _chart (tool (state_after (activate 7 8) world_attached_idle)) = Some 7 /\
  repaint_requests (host (state_after (activate 7 8) world_attached_idle)) =
    repaint_requests (host world_attached_idle).
Proof.
  split; [reflexivity|].
  destruct (activate_from_inactive world_attached_idle 7 8
              world_attached_idle_reachable eq_refl)
    as (_ & Hactive & Hchart & _ & _ & _ & _ & _ & _ & Hreq).
  split; [exact Hactive|]. split; [exact Hchart|exact Hreq].
Defined.

Lemma ignored_click_changes_nothing_witness :
  state_after (host_click 1 {| ev_time := None; ev_point := Some {| pt_x := 3%Z; pt_y := 4%Z |} |})
    world_one_point = world_one_point /\
  state_after (host_click 2 (pointer_at 100 5)) world_one_point = world_one_point.
Proof.
  split.
  - apply (ignored_click_changes_nothing world_one_point 1
             {| ev_time := None; ev_point := Some {| pt_x := 3%Z; pt_y := 4%Z |} |}
             world_one_point_reachable).
    left. intros series _. reflexivity.
  - apply (ignored_click_changes_nothing world_one_point 2 (pointer_at 100 5)
             world_one_point_reachable).
    right. left. discriminate.
Defined.


Lemma pointer_move_sets_tempPoint_witness :
  _tempPoint (tool (state_after (host_crosshairMove 1 (pointer_at 400 8)) world_one_point)) =
    Some {| time := UTCTimestamp 400%Z; price := 8%Z |} /\
  _tempPoint (tool (state_after
                      (host_crosshairMove 1 {| ev_time := None; ev_point := None |})
                      world_out_of_range)) = None /\
  committed (state_after (host_crosshairMove 1 (pointer_at 400 8)) world_one_point) =
    committed world_one_point.
Proof.
  destruct (pointer_move_sets_tempPoint world_one_point 1 1 (pointer_at 400 8)
              world_one_point_reachable eq_refl eq_refl eq_refl)
    as (_ & Htemp & Hpts & _).
  { intros pt _. discriminate. }
  destruct (pointer_move_sets_tempPoint world_out_of_range 1 1
              {| ev_time := None; ev_point := None |}
              world_out_of_range_reachable eq_refl eq_refl eq_refl)
    as (_ & Htemp' & _).
  { intros pt Hpt. discriminate Hpt. }
  split; [exact Htemp|]. split; [exact Htemp'|exact Hpts].
Defined.

Lemma handler_exception_reaches_host_witness :
  coordinateToPrice (viewport (host world_throwing)) 1 5%Z = Throw /\
  host_click 1 (pointer_at 100 5) world_throwing = (world_throwing, Throw) /\
  host_crosshairMove 1 (pointer_at 100 5) world_throwing = (world_throwing, Throw).
Proof.
  split; [reflexivity|].
  exact (handler_exception_reaches_host world_throwing 1 1 (pointer_at 100 5)
           {| pt_x := 0%Z; pt_y := 5%Z |} (UTCTimestamp 100%Z)
           world_throwing_reachable eq_refl eq_refl eq_refl eq_refl eq_refl eq_refl
           eq_refl).
Defined.

Lemma detached_releases_everything_witness :
  _active (tool (state_after detached world_out_of_range)) = false /\
  _requestUpdate (tool (state_after detached world_out_of_range)) = None /\
  committed (state_after detached world_out_of_range) = committed world_out_of_range /\
  repaint_requests (host (state_after detached world_out_of_range)) =
    repaint_requests (host world_out_of_range) ++ [4].
Proof.
  destruct (detached_releases_everything world_out_of_range world_out_of_range_reachable)
    as (_ & Hactive & _ & _ & _ & _ & _ & Hcb & _ & _ & Hpts & _ & Hreq & _).
  split; [exact Hactive|]. split; [exact Hcb|]. split; [exact Hpts|exact Hreq].
Defined.

Lemma deactivate_keeps_cached_preview_witness :
  _tempViewPoint (view world_out_of_range) = Some (pixel_point 300 9) /\
  view (state_after paneViews (state_after deactivate world_out_of_range)) =
    view world_out_of_range /\
  _tempPoint (tool (state_after paneViews (state_after deactivate world_out_of_range))) =
    None.
Proof.
  split; [reflexivity|].
  destruct (deactivate_keeps_cached_preview world_out_of_range
              world_out_of_range_reachable) as (Hview & _ & Htemp & _).
  split; [exact Hview|exact Htemp].
Defined.

Lemma clearPoints_cache_witness :
  cached world_one_point = [pixel_point 100 5] /\
  cached (state_after paneViews (state_after clearPoints world_one_point)) = [] /\
  cached world_deactivated = [pixel_point 100 5] /\
  cached (state_after paneViews (state_after clearPoints world_deactivated)) =
    cached world_deactivated.
Proof.
  split; [reflexivity|].
  split.
  { exact (proj1 (proj1 (proj2 (clearPoints_cache world_one_point)) 1 1 eq_refl eq_refl)). }
  split; [reflexivity|].
  exact (proj1 (proj2 (proj2 (clearPoints_cache world_deactivated)) (or_introl eq_refl))).
Defined.

Lemma toolbar_button_never_activates_witness :
  _active (tool world_deactivated) = false /\
  toolbar_button_click world_deactivated = (world_deactivated, Normal tt) /\
  _active (tool world_one_point) = true /\
  toolbar_button_click world_one_point = deactivate world_one_point.
Proof.
  split; [reflexivity|].
  split.
  { exact (proj2 (toolbar_button_never_activates world_deactivated
                    world_deactivated_reachable) eq_refl). }
  split; [reflexivity|].
  exact (proj1 (toolbar_button_never_activates world_one_point
                  world_one_point_reachable) eq_refl).
Defined.


Lemma committed_append_only_witness :
  committed (state_after (host_click 1 (pointer_at 200 6)) world_one_point) =
    committed world_one_point \/
  (exists point,
     committed (state_after (host_click 1 (pointer_at 200 6)) world_one_point) =
       committed world_one_point ++ [point]) \/
  committed (state_after (host_click 1 (pointer_at 200 6)) world_one_point) = [].
Proof.
  exact (committed_append_only world_one_point _ world_one_point_reachable
           (step_click world_one_point 1 (pointer_at 200 6))).
Defined.

Lemma renderer_payload_survives_every_step_witness :
  exists data,
    observe world_out_of_range
      {| data_points := _viewPoints (view world_out_of_range);
         data_options := _options (tool world_out_of_range);
         data_tempPoint := _tempViewPoint (view world_out_of_range) |} = Some data /\
    points data = cached world_out_of_range /\
    observe (state_after detached
               (state_after (colorPicker_change "#00FF00"%string)
                  (state_after paneViews (state_after clearPoints world_out_of_range))))
      {| data_points := _viewPoints (view world_out_of_range);
         data_options := _options (tool world_out_of_range);
         data_tempPoint := _tempViewPoint (view world_out_of_range) |} = Some data.
Proof.
  apply (renderer_payload_survives_every_step world_out_of_range _ _
           world_out_of_range_reachable eq_refl).
  eapply rtc_l; [apply step_clearPoints|].
  eapply rtc_l; [apply step_paneViews|].
  eapply rtc_l; [apply step_colorPicker|].
  eapply rtc_l; [apply step_detached|].
  apply rtc_refl.
Defined.

Lemma reactivation_continues_polyline_witness :
  click_point (viewport (host world_one_point)) 9 (pointer_at 200 6) =
    Some {| time := UTCTimestamp 200%Z; price := 6%Z |} /\
  committed (state_after (host_click 8 (pointer_at 200 6))
               (state_after (activate 8 9) (state_after deactivate world_one_point))) =
    committed world_one_point ++ [ {| time := UTCTimestamp 200%Z; price := 6%Z |} ].
Proof.
  split; [reflexivity|].
  destruct (reactivation_continues_polyline world_one_point 8 9 (pointer_at 200 6)
              {| time := UTCTimestamp 200%Z; price := 6%Z |}
              world_one_point_reachable eq_refl) as (_ & _ & _ & _ & Hpts).
  exact Hpts.
Defined.

Lemma getPoints_returns_new_array_witness :
  exists l,
    result_of getPoints world_one_point = Normal l /\
    l <> _points (tool (state_after getPoints world_one_point)) /\
    point_arrays (heap (state_after getPoints world_one_point)) !! l =
      Some (committed world_one_point) /\
    committed (state_after (write_point_array l [])
                 (state_after getPoints world_one_point)) =
      committed world_one_point.
Proof.
  destruct (getPoints_returns_new_array world_one_point world_one_point_reachable)
    as (l & l' & Hl & _ & _ & Hne & Hcopy & _ & _ & _ & _ & Hwrite).
  exists l. split; [exact Hl|]. split; [exact Hne|]. split; [exact Hcopy|].
  exact (Hwrite []).
Defined.
